(** * Minesweeper knowledge-based agent: shallow embedding of [minesweeper.py]

    The three classes of the program are embedded as three modules:
    [Minesweeper] (the board), [Sentence] (a set of cells with a mine count)
    and [MinesweeperAI] (the agent). Python sets are finite sets [gset],
    Python integers are [Z], the knowledge base is a [list] of sentences.

    Sentences are mutable objects shared between [self.knowledge] and the
    snapshots [copy_knowledge]; a snapshot holds the very objects of the
    knowledge base at the same positions, so the embedding addresses a
    sentence by its position in the knowledge base and always reads its
    current value there. *)

From stdpp Require Import gmap list.

Open Scope Z_scope.

Abbreviation Cell := (Z * Z)%type.

(** Python's [range(a, b)]. *)
Definition range (a b : Z) : list Z := seqZ a (b - a).

(** Python's [l[i]]: negative indices count from the end, anything out of
    range raises [IndexError] (here [None]). *)
Definition py_index {A} (l : list A) (i : Z) : option A :=
  if bool_decide (0 ≤ i) then l !! Z.to_nat i
  else if bool_decide (- Z.of_nat (length l) ≤ i) then l !! Z.to_nat (Z.of_nat (length l) + i)
  else None.

(** Python's [l[i] = x], with the same reading of the index. *)
Definition py_setitem {A} (l : list A) (i : Z) (x : A) : option (list A) :=
  if bool_decide (0 ≤ i) then
    if bool_decide (i < Z.of_nat (length l)) then Some (<[Z.to_nat i := x]> l) else None
  else if bool_decide (- Z.of_nat (length l) ≤ i)
       then Some (<[Z.to_nat (Z.of_nat (length l) + i) := x]> l)
       else None.

(** [random.randrange(n)], the random draw [r] made explicit: [ValueError]
    (here [None]) when [n <= 0], otherwise a value of [range(n)]; every
    value of [range(n)] is the result for some [r]. *)
Definition randrange (n : Z) (r : nat) : option Z :=
  if bool_decide (0 < n) then Some (Z.of_nat r `mod` n) else None.

(** [random.choice(seq)] for a non-empty sequence, the random draw [r] made
    explicit: the element at position [r mod len(seq)]. *)
Definition random_choice {A} (r : nat) (l : list A) : option A :=
  l !! (r `mod` length l)%nat.

(** ** The board *)
Module Minesweeper.

Record t := mk {
  height : Z;
  width : Z;
  mines : gset Cell;
  board : list (list bool);
  mines_found : gset Cell
}.

(** [is_mine]: [self.board[i][j]]. *)
Definition is_mine (self : t) (cell : Cell) : option bool :=
  let '(i, j) := cell in
  row ← py_index (board self) i;
  py_index row j.

(** One iteration of the inner loop of [nearby_mines], at cell [(i, j)],
    with the running [count]. *)
Definition nearby_step (self : t) (cell : Cell) (count : Z) (ij : Cell) : option Z :=
  if bool_decide (ij = cell) then Some count
  else
    if bool_decide (0 ≤ ij.1 < height self) && bool_decide (0 ≤ ij.2 < width self) then
      b ← is_mine self ij;
      Some (if b : bool then count + 1 else count)
    else Some count.

Definition nearby_mines (self : t) (cell : Cell) : option Z :=
  foldl (λ acc i,
           foldl (λ acc j, count ← acc; nearby_step self cell count (i, j))
                 acc (range (cell.2 - 1) (cell.2 + 2)))
        (Some 0) (range (cell.1 - 1) (cell.1 + 2)).

Definition won (self : t) : bool :=
  bool_decide (mines_found self = mines self).

(** What [__init__] does on a finite supply of random draws. *)
Inductive built :=
  | Built (self : t)
  | Raised
  | More_draws.

(** [self.board[i][j] = True]: the row object at [i] is updated in place. *)
Definition set_mine (board : list (list bool)) (i j : Z) : option (list (list bool)) :=
  row ← py_index board i;
  row' ← py_setitem row j true;
  py_setitem board i row'.

(** [randrange(n)] when no draw is left: it raises at once for [n <= 0],
    and otherwise the loop is waiting for a draw. *)
Definition starved (n : Z) : built :=
  if bool_decide (0 < n) then More_draws else Raised.

(** The loop [while len(self.mines) != mines] of [__init__]; each call of
    [randrange] takes one draw. [Raised] stands for an exception,
    [More_draws] for a loop still running when the draws run out. *)
Fixpoint place_mines (height width wanted : Z) (draws : list nat)
    (board : list (list bool)) (mines : gset Cell) : built :=
  if bool_decide (Z.of_nat (size mines) ≠ wanted) then
    match draws with
    | [] => starved height
    | r1 :: draws1 =>
        match randrange height r1 with
        | None => Raised
        | Some i =>
            match draws1 with
            | [] => starved width
            | r2 :: draws2 =>
                match randrange width r2 with
                | None => Raised
                | Some j =>
                    match row ← py_index board i; py_index row j with
                    | None => Raised
                    | Some true => place_mines height width wanted draws2 board mines
                    | Some false =>
                        match set_mine board i j with
                        | None => Raised
                        | Some board' =>
                            place_mines height width wanted draws2 board'
                                        ({[(i, j)]} ∪ mines)
                        end
                    end
                end
            end
        end
    end
  else Built (mk height width mines board ∅).

(** [Minesweeper(height, width, mines)]: an empty board of [height] rows of
    [width] cells, then the mines placed at random. *)
Definition __init__ (height width mines : Z) (draws : list nat) : built :=
  place_mines height width mines draws
    (replicate (Z.to_nat height) (replicate (Z.to_nat width) false)) ∅.

End Minesweeper.

(** ** Sentences *)
Module Sentence.

Record t := mk {
  cells : gset Cell;
  count : Z
}.

Definition __eq__ (self other : t) : bool :=
  bool_decide (cells self = cells other) && bool_decide (count self = count other).

Definition known_mines (self : t) : gset Cell :=
  if bool_decide (Z.of_nat (size (cells self)) = count self) then cells self else ∅.

Definition known_safes (self : t) : gset Cell :=
  if bool_decide (count self = 0) then cells self else ∅.

Definition mark_mine (cell : Cell) (self : t) : t :=
  if bool_decide (cell ∈ cells self)
  then {| cells := cells self ∖ {[cell]}; count := count self - 1 |}
  else self.

Definition mark_safe (cell : Cell) (self : t) : t :=
  {| cells := cells self ∖ {[cell]}; count := count self |}.

End Sentence.

(** [x in l] on a list of sentences: some element is [==] to [x]. *)
Definition sentence_in (x : Sentence.t) (l : list Sentence.t) : bool :=
  existsb (Sentence.__eq__ x) l.

(** ** The agent *)
Module MinesweeperAI.

Record t := mk {
  height : Z;
  width : Z;
  moves_made : gset Cell;
  mines : gset Cell;
  safes : gset Cell;
  knowledge : list Sentence.t
}.

Definition __init__ (height width : Z) : t :=
  {| height := height; width := width;
     moves_made := ∅; mines := ∅; safes := ∅; knowledge := [] |}.

Definition set_knowledge (self : t) (kb : list Sentence.t) : t :=
  {| height := height self; width := width self;
     moves_made := moves_made self; mines := mines self; safes := safes self;
     knowledge := kb |}.

Definition mark_mine (self : t) (cell : Cell) : t :=
  {| height := height self; width := width self;
     moves_made := moves_made self;
     mines := {[cell]} ∪ mines self;
     safes := safes self;
     knowledge := Sentence.mark_mine cell <$> knowledge self |}.

Definition mark_safe (self : t) (cell : Cell) : t :=
  {| height := height self; width := width self;
     moves_made := moves_made self;
     mines := mines self;
     safes := {[cell]} ∪ safes self;
     knowledge := Sentence.mark_safe cell <$> knowledge self |}.

(** Body of the [while] loop of [mark_mine_or_safe] for the sentence
    popped from the snapshot, which is the object at position [k] of the
    knowledge base. The two [for] loops run over copies of the sets the
    sentence reports at the moment each loop starts. *)
Definition visit (k : nat) (self : t) : t :=
  match knowledge self !! k with
  | None => self
  | Some sentence =>
      let self := foldl mark_safe self (elements (Sentence.known_safes sentence)) in
      match knowledge self !! k with
      | None => self
      | Some sentence => foldl mark_mine self (elements (Sentence.known_mines sentence))
      end
  end.

(** [while copy_knowledge: sentence = copy_knowledge.pop(); ...] on a
    snapshot of [n] sentences: positions [n-1], ..., [0]. *)
Fixpoint scan (n : nat) (self : t) : t :=
  match n with
  | O => self
  | S k => scan k (visit k self)
  end.

Definition mark_mine_or_safe (self : t) : t :=
  scan (length (knowledge self)) self.

(** Steps 1 and 2 of [add_knowledge]. *)
Definition record_move (self : t) (cell : Cell) : t :=
  mark_safe
    {| height := height self; width := width self;
       moves_made := {[cell]} ∪ moves_made self;
       mines := mines self; safes := safes self;
       knowledge := knowledge self |}
    cell.

(** Body of the double loop of step 3 at [nearby_cell = (i+x, j+y)];
    the accumulator is the pair [(cells, new_count)]. *)
Definition neighbour_step (self : t) (cell : Cell) (acc : gset Cell * Z)
    (nearby_cell : Cell) : gset Cell * Z :=
  if bool_decide (0 ≤ nearby_cell.1 < height self) && bool_decide (0 ≤ nearby_cell.2 < width self) then
    if bool_decide (nearby_cell ∉ safes self ∪ moves_made self) && bool_decide (nearby_cell ≠ cell) then
      if bool_decide (nearby_cell ∈ mines self) then (acc.1, acc.2 - 1)
      else ({[nearby_cell]} ∪ acc.1, acc.2)
    else acc
  else acc.

(** The sentence built by step 3. *)
Definition new_sentence (self : t) (cell : Cell) (count : Z) : Sentence.t :=
  let '(i, j) := cell in
  let acc :=
    foldl (λ acc x,
             foldl (λ acc y, neighbour_step self cell acc (i + x, j + y))
                   acc (range (-1) 2))
          (∅, count) (range (-1) 2) in
  Sentence.mk acc.1 acc.2.

(** [if s not in self.knowledge: self.knowledge.append(s)]. *)
Definition append_if_new (s : Sentence.t) (self : t) : t :=
  if sentence_in s (knowledge self) then self
  else set_knowledge self (knowledge self ++ [s]).

(** [self.knowledge = [sentence for sentence in self.knowledge
    if len(sentence.cells) > 0]]. *)
Definition prune (self : t) : t :=
  set_knowledge self
    (filter (λ sentence, (0 < size (Sentence.cells sentence))%nat) (knowledge self)).

(** Body of [for sentence2 in copy_knowledge] in step 5; [sentence2] is
    the object at position [m]. *)
Definition derive_step (set1 : gset Cell) (count1 : Z) (self : t) (m : nat) : t :=
  match knowledge self !! m with
  | None => self
  | Some sentence2 =>
      if bool_decide (set1 ⊆ Sentence.cells sentence2) then
        append_if_new
          (Sentence.mk (Sentence.cells sentence2 ∖ set1) (Sentence.count sentence2 - count1))
          self
      else self
  end.

(** Body of the [while] loop of step 5 once [sentence1], the object at
    position [k], has been popped: the snapshot still holds the objects
    at positions [0], ..., [k-1]. *)
Definition derive_from (k : nat) (self : t) : t :=
  match knowledge self !! k with
  | None => self
  | Some sentence1 =>
      mark_mine_or_safe
        (foldl (derive_step (Sentence.cells sentence1) (Sentence.count sentence1))
               self (seq 0 k))
  end.

(** The [while] loop of step 5 on a snapshot of [n] sentences: [sentence1]
    is popped from positions [n-1], ..., [0] in turn. *)
Fixpoint infer (n : nat) (self : t) : t :=
  match n with
  | O => self
  | S k => infer k (derive_from k self)
  end.

(** [add_knowledge]: steps 1 and 2, the new sentence of step 3, one pass
    of [mark_mine_or_safe], the removal of empty sentences, and step 5. *)
Definition add_knowledge (self : t) (cell : Cell) (count : Z) : t :=
  let self := record_move self cell in
  let self := append_if_new (new_sentence self cell count) self in
  let self := mark_mine_or_safe self in
  let self := prune self in
  infer (length (knowledge self)) self.

(** [make_safe_move], for the random draw [r]. *)
Definition make_safe_move (self : t) (r : nat) : option Cell :=
  let moves := safes self ∖ (moves_made self ∪ mines self) in
  if bool_decide (moves ≠ ∅) then random_choice r (elements moves) else None.

(** [{(i, j) for i in range(0, height) for j in range(0, width)}]. *)
Definition all_moves (self : t) : gset Cell :=
  list_to_set (i ← range 0 (height self); j ← range 0 (width self); [(i, j)]).

(** [make_random_move], for the random draw [r]. *)
Definition make_random_move (self : t) (r : nat) : option Cell :=
  let moves := all_moves self ∖ (mines self ∪ moves_made self) in
  if bool_decide (moves ≠ ∅) then random_choice r (elements moves) else None.

End MinesweeperAI.

(** Running the agent on a list of observations, oldest first. *)
Definition observe_all (self : MinesweeperAI.t) (obs : list (Cell * Z)) : MinesweeperAI.t :=
  foldl (λ st o, MinesweeperAI.add_knowledge st o.1 o.2) self obs.

(** ** Vocabulary of the properties *)

(** The agent as created for a game, and the agent after a list of
    observations made from that start. *)
Definition fresh_agent (g : Minesweeper.t) : MinesweeperAI.t :=
  MinesweeperAI.__init__ (Minesweeper.height g) (Minesweeper.width g).

Definition play (g : Minesweeper.t) (obs : list (Cell * Z)) : MinesweeperAI.t :=
  observe_all (fresh_agent g) obs.

(** What the caller of [add_knowledge] owes: [cell] holds no mine and
    [count] is what the board reports for it. *)
Definition valid_observation (g : Minesweeper.t) (cell : Cell) (count : Z) : Prop :=
  Minesweeper.is_mine g cell = Some false ∧ Minesweeper.nearby_mines g cell = Some count.

#[global] Instance valid_observation_dec g cell count :
  Decision (valid_observation g cell count).
Proof. unfold valid_observation. apply _. Defined.

(** Agent states reached from a fresh agent through valid observations. *)
Inductive reachable (g : Minesweeper.t) : MinesweeperAI.t → Prop :=
  | reachable_fresh : reachable g (fresh_agent g)
  | reachable_add st cell count :
      reachable g st →
      valid_observation g cell count →
      reachable g (MinesweeperAI.add_knowledge st cell count).

(** [c] is a cell of the board of height [h] and width [w]. *)
Definition in_bounds (h w : Z) (c : Cell) : Prop :=
  0 ≤ c.1 < h ∧ 0 ≤ c.2 < w.

#[global] Instance in_bounds_dec h w c : Decision (in_bounds h w c).
Proof. unfold in_bounds. apply _. Defined.

(** [c] is in the 3x3 block centred on [cell], on the agent's board, and
    is not [cell] itself. *)
Definition neighbour (self : MinesweeperAI.t) (cell c : Cell) : Prop :=
  (cell.1 - 1 ≤ c.1 ≤ cell.1 + 1 ∧ cell.2 - 1 ≤ c.2 ≤ cell.2 + 1)
  ∧ in_bounds (MinesweeperAI.height self) (MinesweeperAI.width self) c
  ∧ c ≠ cell.

#[global] Instance neighbour_dec self cell c : Decision (neighbour self cell c).
Proof. unfold neighbour. apply _. Defined.

(** The offsets [(x, y)] of the double loop of step 3, in loop order, and
    the cells [(i+x, j+y)] it visits. *)
Definition offsets : list (Z * Z) :=
  x ← range (-1) 2; y ← range (-1) 2; [(x, y)].

Definition block (cell : Cell) : list Cell :=
  (λ d, (cell.1 + d.1, cell.2 + d.2)) <$> offsets.

(** How the loop of step 3 treats a cell it visits: an undetermined cell
    joins the new sentence, a known mine that is not skipped lowers the
    count. *)
Definition undetermined (st : MinesweeperAI.t) (cell c : Cell) : Prop :=
  in_bounds (MinesweeperAI.height st) (MinesweeperAI.width st) c
  ∧ (c ∉ MinesweeperAI.safes st ∪ MinesweeperAI.moves_made st)
  ∧ c ≠ cell
  ∧ (c ∉ MinesweeperAI.mines st).

#[global] Instance undetermined_dec st cell c : Decision (undetermined st cell c).
Proof. unfold undetermined. apply _. Defined.

Definition discounted (st : MinesweeperAI.t) (cell c : Cell) : Prop :=
  in_bounds (MinesweeperAI.height st) (MinesweeperAI.width st) c
  ∧ (c ∉ MinesweeperAI.safes st ∪ MinesweeperAI.moves_made st)
  ∧ c ≠ cell
  ∧ c ∈ MinesweeperAI.mines st.

#[global] Instance discounted_dec st cell c : Decision (discounted st cell c).
Proof. unfold discounted. apply _. Defined.

(** Two sentences are equal in the sense of [Sentence.__eq__]. *)
Definition same_sentence (s1 s2 : Sentence.t) : Prop :=
  Sentence.cells s1 = Sentence.cells s2 ∧ Sentence.count s1 = Sentence.count s2.

(** Certain facts are propagated: what each sentence knows for sure is
    recorded in the agent's sets. *)
Definition propagated (st : MinesweeperAI.t) : Prop :=
  Forall (λ s, Sentence.known_mines s ⊆ MinesweeperAI.mines st
               ∧ Sentence.known_safes s ⊆ MinesweeperAI.safes st)
         (MinesweeperAI.knowledge st).

(** The sentence derived from [s1] and [s2] when [cells s1 ⊆ cells s2]. *)
Definition derived (s1 s2 : Sentence.t) : Sentence.t :=
  Sentence.mk (Sentence.cells s2 ∖ Sentence.cells s1)
              (Sentence.count s2 - Sentence.count s1).

(** The knowledge base holds the derived sentence of each of its pairs. *)
Definition subset_closed (kb : list Sentence.t) : Prop :=
  ∀ i j s1 s2,
    i ≠ j → kb !! i = Some s1 → kb !! j = Some s2 →
    ¬ same_sentence s1 s2 →
    Sentence.cells s1 ⊆ Sentence.cells s2 →
    Sentence.cells (derived s1 s2) ≠ ∅ →
    ∃ s, s ∈ kb ∧ same_sentence s (derived s1 s2).

(** No sentence of the knowledge base has an empty cell set. *)
Definition no_empty_sentence (kb : list Sentence.t) : Prop :=
  Forall (λ s, Sentence.cells s ≠ ∅) kb.

(** No two positions of the knowledge base hold equal sentences. *)
Definition no_equal_pair (kb : list Sentence.t) : Prop :=
  ∀ i j s1 s2,
    i ≠ j → kb !! i = Some s1 → kb !! j = Some s2 → ¬ same_sentence s1 s2.

(** A second call with the same arguments changes nothing the first call
    left in the knowledge base, [mines] and [safes]. *)
Definition idempotent_at (st : MinesweeperAI.t) (cell : Cell) (count : Z) : Prop :=
  let once := MinesweeperAI.add_knowledge st cell count in
  let twice := MinesweeperAI.add_knowledge once cell count in
  MinesweeperAI.knowledge twice = MinesweeperAI.knowledge once
  ∧ MinesweeperAI.mines twice = MinesweeperAI.mines once
  ∧ MinesweeperAI.safes twice = MinesweeperAI.safes once.

(** The three sets of certain facts of [st] are included in those of [st']. *)
Definition facts_included (st st' : MinesweeperAI.t) : Prop :=
  MinesweeperAI.mines st ⊆ MinesweeperAI.mines st'
  ∧ MinesweeperAI.safes st ⊆ MinesweeperAI.safes st'
  ∧ MinesweeperAI.moves_made st ⊆ MinesweeperAI.moves_made st'.

(** The cells [make_safe_move] and [make_random_move] may return. *)
Definition safe_candidates (self : MinesweeperAI.t) : gset Cell :=
  MinesweeperAI.safes self ∖ (MinesweeperAI.moves_made self ∪ MinesweeperAI.mines self).

Definition free_cell (self : MinesweeperAI.t) (c : Cell) : Prop :=
  in_bounds (MinesweeperAI.height self) (MinesweeperAI.width self) c
  ∧ c ∉ MinesweeperAI.mines self ∪ MinesweeperAI.moves_made self.

(** The sentence of step 3 as the property under test words it: the
    undetermined neighbours, with the count lowered by every neighbour that
    is in [mines]; appended when no equal sentence is there. The sets are
    those of the agent when [add_knowledge] is called. *)
Definition new_sentence_cells_spec (self : MinesweeperAI.t) (cell : Cell) (s : Sentence.t) : Prop :=
  ∀ c, c ∈ Sentence.cells s ↔
       neighbour self cell c
       ∧ (c ∉ MinesweeperAI.safes self)
       ∧ (c ∉ MinesweeperAI.moves_made self)
       ∧ (c ∉ MinesweeperAI.mines self).

Definition appended_iff_new (s : Sentence.t) (before after : list Sentence.t) : Prop :=
  ((∃ s', s' ∈ before ∧ same_sentence s s') → after = before)
  ∧ (¬ (∃ s', s' ∈ before ∧ same_sentence s s') → after = before ++ [s]).

Definition step3_as_stated (self : MinesweeperAI.t) (cell : Cell) (count : Z) : Prop :=
  let st := MinesweeperAI.record_move self cell in
  let s := MinesweeperAI.new_sentence st cell count in
  new_sentence_cells_spec self cell s
  ∧ Sentence.count s
    = count - Z.of_nat (size (filter (neighbour self cell) (MinesweeperAI.mines self)))
  ∧ appended_iff_new s (MinesweeperAI.knowledge st)
                     (MinesweeperAI.knowledge (MinesweeperAI.append_if_new s st)).

(** The same, the count lowered only by the neighbours in [mines] that the
    loop does not skip for being in [safes] or [moves_made]. *)
Definition step3_as_coded (self : MinesweeperAI.t) (cell : Cell) (count : Z) : Prop :=
  let st := MinesweeperAI.record_move self cell in
  let s := MinesweeperAI.new_sentence st cell count in
  new_sentence_cells_spec self cell s
  ∧ Sentence.count s
    = count - Z.of_nat (size (filter
                 (λ c, neighbour self cell c
                       ∧ c ∉ MinesweeperAI.safes self ∪ MinesweeperAI.moves_made self)
                 (MinesweeperAI.mines self)))
  ∧ appended_iff_new s (MinesweeperAI.knowledge st)
                     (MinesweeperAI.knowledge (MinesweeperAI.append_if_new s st)).

(** The properties above that are decided by evaluation on test inputs. *)
#[global] Instance sentence_eq_dec : EqDecision Sentence.t.
Proof. solve_decision. Defined.

#[global] Instance same_sentence_dec s1 s2 : Decision (same_sentence s1 s2).
Proof. unfold same_sentence. apply _. Defined.

#[global] Instance propagated_dec st : Decision (propagated st).
Proof. unfold propagated. apply _. Defined.

#[global] Instance no_empty_sentence_dec kb : Decision (no_empty_sentence kb).
Proof. unfold no_empty_sentence. apply _. Defined.

#[global] Instance idempotent_at_dec st cell count : Decision (idempotent_at st cell count).
Proof. unfold idempotent_at. apply _. Defined.

(** ** Soundness vocabulary: what is true of a given board *)

(** [c] holds a mine of [g]. *)
Definition mine_at (g : Minesweeper.t) (c : Cell) : Prop :=
  Minesweeper.is_mine g c = Some true.

#[global] Instance mine_at_dec g c : Decision (mine_at g c).
Proof. unfold mine_at. apply _. Defined.

(** Number of mines of [g] among the cells of [X]. *)
Definition mine_count (g : Minesweeper.t) (X : gset Cell) : Z :=
  Z.of_nat (size (filter (mine_at g) X)).

(** The sentence states the truth about [g]. *)
Definition sentence_true (g : Minesweeper.t) (s : Sentence.t) : Prop :=
  Sentence.count s = mine_count g (Sentence.cells s).

(** Everything the agent holds is true of [g]. *)
Record sound (g : Minesweeper.t) (st : MinesweeperAI.t) : Prop := mk_sound {
  sound_height : MinesweeperAI.height st = Minesweeper.height g;
  sound_width : MinesweeperAI.width st = Minesweeper.width g;
  sound_mines : ∀ c, c ∈ MinesweeperAI.mines st → mine_at g c;
  sound_safes : ∀ c, c ∈ MinesweeperAI.safes st → ¬ mine_at g c;
  sound_moves : MinesweeperAI.moves_made st ⊆ MinesweeperAI.safes st;
  sound_knowledge : Forall (sentence_true g) (MinesweeperAI.knowledge st)
}.

(** A cell the loop of [nearby_mines] counts. *)
Definition counted (g : Minesweeper.t) (cell c : Cell) : Prop :=
  c ≠ cell ∧ in_bounds (Minesweeper.height g) (Minesweeper.width g) c ∧ mine_at g c.

#[global] Instance counted_dec g cell c : Decision (counted g cell c).
Proof. unfold counted. apply _. Defined.

(** ** Boards and observations used as test inputs *)

Definition board_of (rows : list (list bool)) : gset Cell :=
  list_to_set
    (i ← seq 0 (length rows);
     j ← seq 0 (length (default [] (rows !! i)));
     (if default false (default [] (rows !! i) !! j)
      then [(Z.of_nat i, Z.of_nat j)] else [])).

Definition game_of (h w : Z) (rows : list (list bool)) : Minesweeper.t :=
  {| Minesweeper.height := h; Minesweeper.width := w;
     Minesweeper.mines := board_of rows;
     Minesweeper.board := rows;
     Minesweeper.mines_found := ∅ |}.

(** 2x3 board, mines at (0,0), (1,0), (1,1). *)
Definition game_a : Minesweeper.t :=
  game_of 2 3 [[true; false; false]; [true; true; false]].

Definition obs_a : list (Cell * Z) := [((0, 1), 3); ((1, 2), 1)].

(** 3x2 board, one mine at (0,1). *)
Definition game_b : Minesweeper.t :=
  game_of 3 2 [[false; true]; [false; false]; [false; false]].

Definition obs_b : list (Cell * Z) := [((0, 0), 1); ((1, 0), 1)].

(** 3x4 board, mines at (1,0), (1,3). *)
Definition game_c : Minesweeper.t :=
  game_of 3 4 [[false; false; false; false];
               [true; false; false; true];
               [false; false; false; false]].

Definition obs_c : list (Cell * Z) :=
  [((2, 2), 1); ((0, 3), 1); ((2, 0), 1); ((2, 1), 1); ((0, 2), 1)].

(** 2x3 board, mines at (0,1), (1,2). *)
Definition game_d : Minesweeper.t :=
  game_of 2 3 [[false; true; false]; [false; false; true]].

Definition obs_d : list (Cell * Z) := [((0, 2), 2)].

(** 1x2 agent told first that (0,0) has one mined neighbour, then that
    (0,1) was played: (0,1) ends in both [mines] and [safes]. No 1x2 board
    makes both observations true. *)
Definition confused_agent : MinesweeperAI.t :=
  observe_all (MinesweeperAI.__init__ 1 2) [((0, 0), 1); ((0, 1), 0)].

(** ** Vocabulary of the further properties *)

(** [st'] has the board size and the played cells of [st]. *)
Definition same_board (st st' : MinesweeperAI.t) : Prop :=
  MinesweeperAI.height st = MinesweeperAI.height st'
  ∧ MinesweeperAI.width st = MinesweeperAI.width st'
  ∧ MinesweeperAI.moves_made st = MinesweeperAI.moves_made st'.

(** No sentence mentions a cell that is already in [safes] or [mines]. *)
Definition clean (st : MinesweeperAI.t) : Prop :=
  Forall (λ s, Sentence.cells s ## MinesweeperAI.safes st ∪ MinesweeperAI.mines st)
         (MinesweeperAI.knowledge st).

(** No sentence of the knowledge base reports a known mine or safe. *)
Definition nothing_known (kb : list Sentence.t) : Prop :=
  Forall (λ s, Sentence.known_mines s = ∅ ∧ Sentence.known_safes s = ∅) kb.

(** The board has [height] rows of [width] cells. *)
Definition well_formed (g : Minesweeper.t) : Prop :=
  Z.of_nat (length (Minesweeper.board g)) = Minesweeper.height g
  ∧ Forall (λ row, Z.of_nat (length row) = Minesweeper.width g) (Minesweeper.board g).

#[global] Instance well_formed_dec g : Decision (well_formed g).
Proof. unfold well_formed. apply _. Defined.

(** The sentence at position [p] has count 0, and every cell of [U] is
    still in it or already in [safes]; all of it in an agent that is sound
    for [g]. *)
Definition pending_zero (g : Minesweeper.t) (p : nat) (U : gset Cell)
    (st : MinesweeperAI.t) : Prop :=
  sound g st
  ∧ ∃ s, MinesweeperAI.knowledge st !! p = Some s
         ∧ Sentence.count s = 0
         ∧ ∀ c, c ∈ U → c ∈ Sentence.cells s ∨ c ∈ MinesweeperAI.safes st.

(** [s'] is [s] with some cells removed, and is [s] itself when none is. *)
Definition shrunk (s s' : Sentence.t) : Prop :=
  Sentence.cells s' ⊆ Sentence.cells s
  ∧ (Sentence.cells s' = Sentence.cells s → s' = s).

(** From [st] to [st'] certain facts were only added, the knowledge base
    kept its sentences in place and each of them only lost cells. *)
Definition only_removed (st st' : MinesweeperAI.t) : Prop :=
  facts_included st st'
  ∧ Forall2 shrunk (MinesweeperAI.knowledge st) (MinesweeperAI.knowledge st').

(** The sentence at position [p] has as many mines as cells, and every
    cell of [U] is still in it or already in [mines]; all of it in an agent
    that is sound for [g]. *)
Definition pending_full (g : Minesweeper.t) (p : nat) (U : gset Cell)
    (st : MinesweeperAI.t) : Prop :=
  sound g st
  ∧ ∃ s, MinesweeperAI.knowledge st !! p = Some s
         ∧ Sentence.count s = Z.of_nat (size (Sentence.cells s))
         ∧ ∀ c, c ∈ U → c ∈ Sentence.cells s ∨ c ∈ MinesweeperAI.mines st.

(** 2x2 board, every cell mined but (0,0). *)
Definition game_e : Minesweeper.t :=
  game_of 2 2 [[false; true]; [true; true]].

(** The grid [board] has [h] rows of [w] cells, and its [True] cells are
    exactly the cells of [mines]. *)
Definition agrees (h w : Z) (board : list (list bool)) (mines : gset Cell) : Prop :=
  length board = Z.to_nat h
  ∧ Forall (λ row, length row = Z.to_nat w) board
  ∧ ∀ c, c ∈ mines ↔ in_bounds h w c ∧ (row ← py_index board c.1; py_index row c.2) = Some true.

(** The cells that the draws of [Minesweeper.__init__] name, two draws a
    cell. *)
Fixpoint drawn (height width : Z) (draws : list nat) : list Cell :=
  match draws with
  | r1 :: r2 :: draws => (Z.of_nat r1 `mod` height, Z.of_nat r2 `mod` width)
                         :: drawn height width draws
  | _ => []
  end.

(** * Properties *)

(** ** Sentences: what a sentence knows for sure *)

Lemma size_zero_empty (X : gset Cell) : size X = 0%nat → X = ∅.
Proof. intros HX. by apply leibniz_equiv, size_empty_iff. Qed.

Lemma known_mines_full (s : Sentence.t) :
  Sentence.count s = Z.of_nat (size (Sentence.cells s)) →
  Sentence.known_mines s = Sentence.cells s.
Proof.
  intros Hc. unfold Sentence.known_mines.
  rewrite bool_decide_eq_true_2; [reflexivity | congruence].
Qed.

Lemma known_safes_zero (s : Sentence.t) :
  Sentence.count s = 0 → Sentence.known_safes s = Sentence.cells s.
Proof.
  intros Hc. unfold Sentence.known_safes.
  rewrite bool_decide_eq_true_2; [reflexivity | assumption].
Qed.

Lemma known_mines_elem (s : Sentence.t) (c : Cell) :
  c ∈ Sentence.known_mines s ↔
  c ∈ Sentence.cells s ∧ Sentence.count s = Z.of_nat (size (Sentence.cells s)).
Proof.
  unfold Sentence.known_mines.
  destruct (decide (Z.of_nat (size (Sentence.cells s)) = Sentence.count s)) as [Heq|Hne].
  - rewrite bool_decide_eq_true_2 by assumption. naive_solver.
  - rewrite bool_decide_eq_false_2 by assumption. set_solver.
Qed.

Lemma known_safes_elem (s : Sentence.t) (c : Cell) :
  c ∈ Sentence.known_safes s ↔ c ∈ Sentence.cells s ∧ Sentence.count s = 0.
Proof.
  unfold Sentence.known_safes.
  destruct (decide (Sentence.count s = 0)) as [Heq|Hne].
  - rewrite bool_decide_eq_true_2 by assumption. naive_solver.
  - rewrite bool_decide_eq_false_2 by assumption. set_solver.
Qed.

(** C7. A sentence whose count equals its number of cells reports all its
    cells as mines and none as safe; a sentence whose count is 0 reports all
    its cells as safe and none as mines; any other sentence reports
    nothing. *)
Theorem C7_known_mines_known_safes (s : Sentence.t) :
  (Sentence.count s = Z.of_nat (size (Sentence.cells s)) →
     Sentence.known_mines s = Sentence.cells s ∧ Sentence.known_safes s = ∅)
  ∧ (Sentence.count s = 0 →
       Sentence.known_safes s = Sentence.cells s ∧ Sentence.known_mines s = ∅)
  ∧ (Sentence.count s ≠ Z.of_nat (size (Sentence.cells s)) → Sentence.count s ≠ 0 →
       Sentence.known_mines s = ∅ ∧ Sentence.known_safes s = ∅).
Proof.
  split; [|split].
  - intros Hfull. split; [by apply known_mines_full|].
    unfold Sentence.known_safes. case_bool_decide as Hz; [|reflexivity].
    apply size_zero_empty. lia.
  - intros Hzero. split; [by apply known_safes_zero|].
    unfold Sentence.known_mines. case_bool_decide as Hsz; [|reflexivity].
    apply size_zero_empty. lia.
  - intros Hne Hnz. unfold Sentence.known_mines, Sentence.known_safes.
    rewrite !bool_decide_eq_false_2; [done | assumption | congruence].
Qed.

(** ** Move selection *)

Lemma random_choice_elem {A} (r : nat) (l : list A) (x : A) :
  random_choice r l = Some x → x ∈ l.
Proof. unfold random_choice. apply list_elem_of_lookup_2. Qed.

Lemma random_choice_nonempty {A} (r : nat) (l : list A) :
  l ≠ [] → is_Some (random_choice r l).
Proof.
  intros Hl. unfold random_choice. apply lookup_lt_is_Some.
  apply Nat.mod_upper_bound. destruct l; [done | simpl; lia].
Qed.

Lemma all_moves_elem (self : MinesweeperAI.t) (c : Cell) :
  c ∈ MinesweeperAI.all_moves self ↔
  in_bounds (MinesweeperAI.height self) (MinesweeperAI.width self) c.
Proof.
  unfold MinesweeperAI.all_moves, in_bounds, range. destruct c as [i j].
  rewrite elem_of_list_to_set, list_elem_of_bind. simpl. split.
  - intros (i' & Hj & Hi). apply list_elem_of_bind in Hj as (j' & Hc & Hj).
    apply list_elem_of_singleton in Hc. inversion Hc; subst.
    apply elem_of_seqZ in Hi, Hj. lia.
  - intros [Hi Hj]. exists i. split; [|apply elem_of_seqZ; lia].
    apply list_elem_of_bind. exists j. split; [by apply list_elem_of_singleton|].
    apply elem_of_seqZ. lia.
Qed.

Lemma choice_of_set (X : gset Cell) (r : nat) :
  ((if bool_decide (X ≠ ∅) then random_choice r (elements X) else None) = None ↔ X = ∅)
  ∧ (∀ c, (if bool_decide (X ≠ ∅) then random_choice r (elements X) else None) = Some c →
          c ∈ X).
Proof.
  case_bool_decide as HX.
  - split.
    + split; [|done]. intros Hnone.
      destruct (random_choice_nonempty r (elements X)) as [c Hc]; [|congruence].
      intros Hel. by apply elements_empty_iff, leibniz_equiv in Hel.
    + intros c Hc. apply random_choice_elem in Hc. by apply elem_of_elements in Hc.
  - split; [|done]. split; [|done]. intros _.
    destruct (decide (X = ∅)); [assumption | contradiction].
Qed.

(** C9. [make_safe_move] returns [None] exactly when no known safe cell is
    left unplayed (and unmined), and otherwise one of those cells;
    [make_random_move] returns [None] exactly when every cell of the board
    is a known mine or already played, and otherwise a cell of the board
    that is neither. This holds whatever the random draw [r]. *)
Theorem C9_move_selection (self : MinesweeperAI.t) (r : nat) :
  (MinesweeperAI.make_safe_move self r = None ↔ safe_candidates self = ∅)
  ∧ (∀ c, MinesweeperAI.make_safe_move self r = Some c → c ∈ safe_candidates self)
  ∧ (MinesweeperAI.make_random_move self r = None ↔ ∀ c, ¬ free_cell self c)
  ∧ (∀ c, MinesweeperAI.make_random_move self r = Some c → free_cell self c).
Proof.
  unfold MinesweeperAI.make_safe_move, MinesweeperAI.make_random_move, safe_candidates.
  destruct (choice_of_set
              (MinesweeperAI.safes self ∖ (MinesweeperAI.moves_made self ∪ MinesweeperAI.mines self)) r)
    as [Hs1 Hs2].
  destruct (choice_of_set
              (MinesweeperAI.all_moves self ∖ (MinesweeperAI.mines self ∪ MinesweeperAI.moves_made self)) r)
    as [Hr1 Hr2].
  cbv zeta. split; [exact Hs1|]. split; [exact Hs2|]. split; [split|].
  - intros Hnone c [Hb Hfree]. apply Hr1 in Hnone.
    apply all_moves_elem in Hb. set_solver.
  - intros Hnofree. apply Hr1. apply set_eq. intros c. split; [|set_solver].
    intros [Hb Hfree]%elem_of_difference. exfalso. apply (Hnofree c).
    split; [by apply all_moves_elem | assumption].
  - intros c Hc. apply Hr2, elem_of_difference in Hc as [Hb Hfree].
    split; [by apply all_moves_elem | assumption].
Qed.

(** ** Loops as folds: two induction principles *)

Lemma foldl_related {A B} (R : A → A → Prop) `{!Reflexive R, !Transitive R}
    (f : A → B → A) (l : list B) (a : A) :
  (∀ a b, R a (f a b)) → R a (foldl f a l).
Proof.
  intros Hstep. revert a.
  induction l as [|b l IH]; intros a; simpl; [reflexivity|].
  transitivity (f a b); [apply Hstep | apply IH].
Qed.

Lemma foldl_invariant {A B} (I : A → Prop) (f : A → B → A) (l : list B) (a : A) :
  (∀ a b, b ∈ l → I a → I (f a b)) → I a → I (foldl f a l).
Proof.
  revert a. induction l as [|b l IH]; intros a Hstep Ha; simpl; [assumption|].
  apply IH.
  - intros a' b' Hb'. apply Hstep. by right.
  - apply Hstep; [by left | assumption].
Qed.

Lemma scan_related (R : MinesweeperAI.t → MinesweeperAI.t → Prop)
    `{!Reflexive R, !Transitive R} (n : nat) (st : MinesweeperAI.t) :
  (∀ k st, R st (MinesweeperAI.visit k st)) → R st (MinesweeperAI.scan n st).
Proof.
  intros Hvisit. revert st.
  induction n as [|n IH]; intros st; simpl; [reflexivity|].
  transitivity (MinesweeperAI.visit n st); [apply Hvisit | apply IH].
Qed.

Lemma infer_related (R : MinesweeperAI.t → MinesweeperAI.t → Prop)
    `{!Reflexive R, !Transitive R} (n : nat) (st : MinesweeperAI.t) :
  (∀ k st, R st (MinesweeperAI.derive_from k st)) → R st (MinesweeperAI.infer n st).
Proof.
  intros Hderive. revert st.
  induction n as [|n IH]; intros st; simpl; [reflexivity|].
  transitivity (MinesweeperAI.derive_from n st); [apply Hderive | apply IH].
Qed.

(** ** Certain facts only grow *)

#[local] Instance facts_included_refl : Reflexive facts_included.
Proof. intros st. unfold facts_included. set_solver. Qed.

#[local] Instance facts_included_trans : Transitive facts_included.
Proof. intros st1 st2 st3. unfold facts_included. set_solver. Qed.

Lemma mark_safe_grows (st : MinesweeperAI.t) (c : Cell) :
  facts_included st (MinesweeperAI.mark_safe st c).
Proof. unfold facts_included. simpl. set_solver. Qed.

Lemma mark_mine_grows (st : MinesweeperAI.t) (c : Cell) :
  facts_included st (MinesweeperAI.mark_mine st c).
Proof. unfold facts_included. simpl. set_solver. Qed.

Lemma visit_grows (k : nat) (st : MinesweeperAI.t) :
  facts_included st (MinesweeperAI.visit k st).
Proof.
  unfold MinesweeperAI.visit.
  destruct (MinesweeperAI.knowledge st !! k) as [s|]; [|reflexivity].
  set (st1 := foldl MinesweeperAI.mark_safe st (elements (Sentence.known_safes s))).
  assert (facts_included st st1) as H1
    by (apply (foldl_related facts_included); apply mark_safe_grows).
  destruct (MinesweeperAI.knowledge st1 !! k) as [s'|]; [|assumption].
  transitivity st1; [assumption|].
  apply (foldl_related facts_included); apply mark_mine_grows.
Qed.

Lemma mark_mine_or_safe_grows (st : MinesweeperAI.t) :
  facts_included st (MinesweeperAI.mark_mine_or_safe st).
Proof. apply (scan_related facts_included), visit_grows. Qed.

Lemma set_knowledge_grows (st : MinesweeperAI.t) (kb : list Sentence.t) :
  facts_included st (MinesweeperAI.set_knowledge st kb).
Proof. unfold facts_included. simpl. set_solver. Qed.

Lemma append_if_new_grows (s : Sentence.t) (st : MinesweeperAI.t) :
  facts_included st (MinesweeperAI.append_if_new s st).
Proof.
  unfold MinesweeperAI.append_if_new.
  destruct (sentence_in s (MinesweeperAI.knowledge st));
    [reflexivity | apply set_knowledge_grows].
Qed.

Lemma derive_step_grows (set1 : gset Cell) (count1 : Z) (st : MinesweeperAI.t) (m : nat) :
  facts_included st (MinesweeperAI.derive_step set1 count1 st m).
Proof.
  unfold MinesweeperAI.derive_step.
  destruct (MinesweeperAI.knowledge st !! m) as [s2|]; [|reflexivity].
  destruct (bool_decide (set1 ⊆ Sentence.cells s2)); [|reflexivity].
  apply append_if_new_grows.
Qed.

Lemma derive_from_grows (k : nat) (st : MinesweeperAI.t) :
  facts_included st (MinesweeperAI.derive_from k st).
Proof.
  unfold MinesweeperAI.derive_from.
  destruct (MinesweeperAI.knowledge st !! k) as [s1|]; [|reflexivity].
  etransitivity; [|apply mark_mine_or_safe_grows].
  apply (foldl_related facts_included), derive_step_grows.
Qed.

Lemma record_move_grows (st : MinesweeperAI.t) (cell : Cell) :
  facts_included st (MinesweeperAI.record_move st cell).
Proof. unfold facts_included. simpl. set_solver. Qed.

(** C10. The sets [mines], [safes] and [moves_made] before a call of
    [add_knowledge] are included in the corresponding sets after it. *)
Theorem C10_facts_grow (self : MinesweeperAI.t) (cell : Cell) (count : Z) :
  MinesweeperAI.mines self ⊆ MinesweeperAI.mines (MinesweeperAI.add_knowledge self cell count)
  ∧ MinesweeperAI.safes self ⊆ MinesweeperAI.safes (MinesweeperAI.add_knowledge self cell count)
  ∧ MinesweeperAI.moves_made self
    ⊆ MinesweeperAI.moves_made (MinesweeperAI.add_knowledge self cell count).
Proof.
  change (facts_included self (MinesweeperAI.add_knowledge self cell count)).
  unfold MinesweeperAI.add_knowledge.
  etransitivity; [apply record_move_grows|].
  etransitivity; [apply append_if_new_grows|].
  etransitivity; [apply mark_mine_or_safe_grows|].
  etransitivity; [|apply (infer_related facts_included), derive_from_grows].
  apply set_knowledge_grows.
Qed.

(** Closed decidable facts, by evaluation. *)
Ltac by_evaluation := apply (bool_decide_unpack _); by vm_compute.

(** ** Step 3: the sentence built from an observation *)

Lemma offsets_range : Forall (λ d : Z * Z, -1 ≤ d.1 ≤ 1 ∧ -1 ≤ d.2 ≤ 1) offsets.
Proof. by_evaluation. Qed.

Lemma offsets_complete (x y : Z) : -1 ≤ x ≤ 1 → -1 ≤ y ≤ 1 → (x, y) ∈ offsets.
Proof.
  intros Hx Hy.
  assert (x = -1 ∨ x = 0 ∨ x = 1) as [-> | [-> | ->]] by lia;
    assert (y = -1 ∨ y = 0 ∨ y = 1) as [-> | [-> | ->]] by lia;
    by_evaluation.
Qed.

Lemma offsets_NoDup : NoDup offsets.
Proof. by_evaluation. Qed.

Lemma foldl_offsets {A} (f : A → Z * Z → A) (a : A) :
  foldl (λ acc x, foldl (λ acc y, f acc (x, y)) acc (range (-1) 2)) a (range (-1) 2)
  = foldl f a offsets.
Proof. reflexivity. Qed.

Lemma new_sentence_block (st : MinesweeperAI.t) (cell : Cell) (count : Z) :
  MinesweeperAI.new_sentence st cell count
  = Sentence.mk (foldl (MinesweeperAI.neighbour_step st cell) (∅, count) (block cell)).1
                (foldl (MinesweeperAI.neighbour_step st cell) (∅, count) (block cell)).2.
Proof.
  destruct cell as [i j]. unfold MinesweeperAI.new_sentence, block.
  rewrite foldl_fmap.
  rewrite <- (foldl_offsets
                (λ acc d, MinesweeperAI.neighbour_step st (i, j) acc
                            ((i, j).1 + d.1, (i, j).2 + d.2))).
  reflexivity.
Qed.

Lemma block_elem (cell c : Cell) :
  c ∈ block cell ↔
  cell.1 - 1 ≤ c.1 ≤ cell.1 + 1 ∧ cell.2 - 1 ≤ c.2 ≤ cell.2 + 1.
Proof.
  unfold block. rewrite list_elem_of_fmap. split.
  - intros (d & -> & Hd). simpl.
    pose proof (proj1 (Forall_forall _ _) offsets_range d Hd) as Hrange.
    simpl in Hrange. lia.
  - intros [Hi Hj]. exists (c.1 - cell.1, c.2 - cell.2). split.
    + destruct c; simpl; f_equal; lia.
    + apply offsets_complete; lia.
Qed.

Lemma block_NoDup (cell : Cell) : NoDup (block cell).
Proof.
  unfold block. apply NoDup_fmap_2_strong; [|apply offsets_NoDup].
  intros [x1 y1] [x2 y2] _ _ Heq. simpl in Heq. inversion Heq. f_equal; lia.
Qed.

Lemma neighbour_step_cases (st : MinesweeperAI.t) (cell : Cell) (acc : gset Cell * Z) (c : Cell) :
  MinesweeperAI.neighbour_step st cell acc c
  = (if decide (undetermined st cell c) then {[c]} ∪ acc.1 else acc.1,
     if decide (discounted st cell c) then acc.2 - 1 else acc.2).
Proof.
  unfold MinesweeperAI.neighbour_step, undetermined, discounted, in_bounds.
  destruct acc as [cs n]. simpl.
  repeat case_bool_decide; simpl; repeat case_decide; try reflexivity; exfalso; naive_solver.
Qed.

Lemma neighbour_fold (st : MinesweeperAI.t) (cell : Cell) (l : list Cell) (acc : gset Cell * Z) :
  (foldl (MinesweeperAI.neighbour_step st cell) acc l).1
  = acc.1 ∪ list_to_set (filter (undetermined st cell) l)
  ∧ (foldl (MinesweeperAI.neighbour_step st cell) acc l).2
    = acc.2 - Z.of_nat (length (filter (discounted st cell) l)).
Proof.
  revert acc. induction l as [|c l IH]; intros acc; simpl.
  - split; [set_solver | lia].
  - destruct (IH (MinesweeperAI.neighbour_step st cell acc c)) as [-> ->].
    rewrite neighbour_step_cases, !filter_cons. simpl.
    split.
    + destruct (decide (undetermined st cell c)); set_solver.
    + destruct (decide (discounted st cell c)); simpl; lia.
Qed.
Lemma sentence_in_spec (s : Sentence.t) (l : list Sentence.t) :
  sentence_in s l = true ↔ ∃ s', s' ∈ l ∧ same_sentence s s'.
Proof.
  unfold sentence_in. rewrite existsb_exists. split.
  - intros (s' & Hin & Heq). exists s'. split; [by apply list_elem_of_In|].
    unfold Sentence.__eq__ in Heq. apply andb_true_iff in Heq as [H1 H2].
    apply bool_decide_eq_true in H1, H2. by split.
  - intros (s' & Hin & [H1 H2]). exists s'. split; [by apply list_elem_of_In|].
    unfold Sentence.__eq__. apply andb_true_iff.
    split; by apply bool_decide_eq_true.
Qed.

Lemma append_if_new_knowledge (s : Sentence.t) (st : MinesweeperAI.t) :
  appended_iff_new s (MinesweeperAI.knowledge st)
                   (MinesweeperAI.knowledge (MinesweeperAI.append_if_new s st)).
Proof.
  unfold appended_iff_new, MinesweeperAI.append_if_new.
  destruct (sentence_in s (MinesweeperAI.knowledge st)) eqn:Hin.
  - split; [done|]. intros Hnot. exfalso. by apply Hnot, sentence_in_spec.
  - split; [|done]. intros Hex. apply sentence_in_spec in Hex. congruence.
Qed.

Lemma new_sentence_cells (self : MinesweeperAI.t) (cell : Cell) (count : Z) :
  new_sentence_cells_spec self cell
    (MinesweeperAI.new_sentence (MinesweeperAI.record_move self cell) cell count).
Proof.
  intros c. rewrite new_sentence_block. cbn [Sentence.cells].
  rewrite (proj1 (neighbour_fold _ _ _ _)). cbn [fst].
  rewrite elem_of_union, elem_of_list_to_set, list_elem_of_filter, block_elem.
  unfold undetermined, neighbour, in_bounds. simpl. set_solver.
Qed.

Lemma new_sentence_count (self : MinesweeperAI.t) (cell : Cell) (count : Z) :
  Sentence.count (MinesweeperAI.new_sentence (MinesweeperAI.record_move self cell) cell count)
  = count - Z.of_nat (size (filter
               (λ c, neighbour self cell c
                     ∧ c ∉ MinesweeperAI.safes self ∪ MinesweeperAI.moves_made self)
               (MinesweeperAI.mines self))).
Proof.
  rewrite new_sentence_block. cbn [Sentence.count].
  rewrite (proj2 (neighbour_fold _ _ _ _)). cbn [snd]. do 2 f_equal.
  rewrite <- (size_list_to_set (C:=gset Cell)) by apply NoDup_filter, block_NoDup.
  f_equal. apply set_eq. intros c.
  rewrite elem_of_list_to_set, list_elem_of_filter, block_elem, elem_of_filter.
  unfold discounted, neighbour, in_bounds. simpl. set_solver.
Qed.

(** Whatever the sets of the agent, the sentence built by [add_knowledge]
    holds exactly the in-bounds cells of the 3x3 block around [cell], [cell]
    itself and every cell of [safes], [moves_made] or [mines] left out; its
    count is the given count minus the number of in-bounds neighbours that
    are in [mines] and in neither [safes] nor [moves_made]; it is appended
    to the knowledge base exactly when no equal sentence is there. *)
Lemma new_sentence_as_coded (self : MinesweeperAI.t) (cell : Cell) (count : Z) :
  step3_as_coded self cell count.
Proof.
  unfold step3_as_coded. cbv zeta. split; [|split].
  - apply new_sentence_cells.
  - apply new_sentence_count.
  - apply append_if_new_knowledge.
Qed.


(** The disjointness is needed. An agent told of the 1x2 board that (0,0)
    has one mined neighbour and then that (0,1) was played, which no board
    makes true together, holds (0,1) in [mines] and in [safes]; observing
    (0,0) with count 1 then builds a sentence of count 1, not 1 - 1 = 0. *)
Lemma count_keeps_mine_held_safe : ¬ step3_as_stated confused_agent (0, 0) 1.
Proof.
  intros (_ & Hcount & _). vm_compute in Hcount. discriminate Hcount.
Qed.

(** ** Runs of the agent on true observations *)

Lemma reachable_observe_all (g : Minesweeper.t) (obs : list (Cell * Z)) (st : MinesweeperAI.t) :
  reachable g st →
  Forall (λ o, valid_observation g o.1 o.2) obs →
  reachable g (observe_all st obs).
Proof.
  intros Hst Hobs. revert st Hst.
  induction Hobs as [|o obs Ho _ IH]; intros st Hst; simpl; [assumption|].
  apply IH. by apply reachable_add.
Qed.

Lemma reachable_play (g : Minesweeper.t) (obs : list (Cell * Z)) :
  Forall (λ o, valid_observation g o.1 o.2) obs → reachable g (play g obs).
Proof. apply reachable_observe_all, reachable_fresh. Qed.

(** A closed decidable property that evaluates to false does not hold. *)
Ltac refute_by_evaluation :=
  let H := fresh in
  intros H; apply (bool_decide_pack _) in H; vm_compute in H; exact H.

(** C1. Propagation stops short of a fixpoint. On the 3x4 board with mines
    at (1,0) and (1,3), after the true observations of (2,2), (0,3), (2,0),
    (2,1) and (0,2), the knowledge base still holds the sentence
    {(0,1)} = 0 while (0,1) is not in [safes]. *)
Theorem C1_propagation_stops_short :
  reachable game_c (play game_c obs_c)
  ∧ Sentence.mk {[ (0, 1) ]} 0 ∈ MinesweeperAI.knowledge (play game_c obs_c)
  ∧ ((0, 1) ∉ MinesweeperAI.safes (play game_c obs_c))
  ∧ ¬ propagated (play game_c obs_c).
Proof.
  split; [apply reachable_play; by_evaluation|].
  split; [by_evaluation|]. split; [by_evaluation|]. refute_by_evaluation.
Qed.

(** C2. A derivable sentence is missing. On the 3x2 board with one mine at
    (0,1), after the true observations of (0,0) and (1,0), the knowledge
    base is [{(0,1),(1,1)} = 1; {(0,1),(1,1),(2,0),(2,1)} = 1]: the first
    sentence is a subset of the second, and {(2,0),(2,1)} = 0 is not in
    the knowledge base. *)
Theorem C2_derivation_misses_a_pair :
  reachable game_b (play game_b obs_b)
  ∧ MinesweeperAI.knowledge (play game_b obs_b)
    = [Sentence.mk {[ (0, 1); (1, 1) ]} 1;
       Sentence.mk {[ (0, 1); (1, 1); (2, 0); (2, 1) ]} 1]
  ∧ ¬ subset_closed (MinesweeperAI.knowledge (play game_b obs_b)).
Proof.
  split; [apply reachable_play; by_evaluation|].
  assert (MinesweeperAI.knowledge (play game_b obs_b)
          = [Sentence.mk {[ (0, 1); (1, 1) ]} 1;
             Sentence.mk {[ (0, 1); (1, 1); (2, 0); (2, 1) ]} 1]) as Hkb
    by by_evaluation.
  split; [exact Hkb|]. rewrite Hkb. unfold subset_closed. intros Hclosed.
  destruct (Hclosed 0%nat 1%nat (Sentence.mk {[ (0, 1); (1, 1) ]} 1)
              (Sentence.mk {[ (0, 1); (1, 1); (2, 0); (2, 1) ]} 1))
    as (s & Hs & Hsame).
  - lia.
  - reflexivity.
  - reflexivity.
  - refute_by_evaluation.
  - by_evaluation.
  - by_evaluation.
  - assert (Forall (λ s, ¬ same_sentence s
                            (derived (Sentence.mk {[ (0, 1); (1, 1) ]} 1)
                               (Sentence.mk {[ (0, 1); (1, 1); (2, 0); (2, 1) ]} 1)))
              [Sentence.mk {[ (0, 1); (1, 1) ]} 1;
               Sentence.mk {[ (0, 1); (1, 1); (2, 0); (2, 1) ]} 1]) as Hall
      by by_evaluation.
    exact (proj1 (Forall_forall _ _) Hall s Hs Hsame).
Qed.

(** C3. An empty sentence is retained. On the 2x3 board with mines at
    (0,0), (1,0) and (1,1), after the true observations of (0,1) and (1,2),
    the knowledge base ends with a sentence whose cell set is empty. *)
Theorem C3_empty_sentence_retained :
  reachable game_a (play game_a obs_a)
  ∧ MinesweeperAI.knowledge (play game_a obs_a)
    = [Sentence.mk {[ (0, 2); (1, 1) ]} 1; Sentence.mk {[ (0, 2); (1, 1) ]} 1;
       Sentence.mk ∅ 0]
  ∧ ¬ no_empty_sentence (MinesweeperAI.knowledge (play game_a obs_a)).
Proof.
  split; [apply reachable_play; by_evaluation|].
  split; [by_evaluation | refute_by_evaluation].
Qed.

(** C4. A repeated call changes the state. On the 2x3 board with mines at
    (0,1) and (1,2), after the true observation of (0,2), the true
    observation of (1,1) leaves the knowledge base [{} = 0]; made again, it
    leaves the knowledge base empty. *)
Theorem C4_second_call_changes_knowledge :
  reachable game_d (play game_d obs_d)
  ∧ valid_observation game_d (1, 1) 2
  ∧ MinesweeperAI.knowledge (MinesweeperAI.add_knowledge (play game_d obs_d) (1, 1) 2)
    = [Sentence.mk ∅ 0]
  ∧ MinesweeperAI.knowledge
      (MinesweeperAI.add_knowledge
         (MinesweeperAI.add_knowledge (play game_d obs_d) (1, 1) 2) (1, 1) 2)
    = []
  ∧ ¬ idempotent_at (play game_d obs_d) (1, 1) 2.
Proof.
  split; [apply reachable_play; by_evaluation|].
  split; [by_evaluation|]. split; [by_evaluation|]. split; [by_evaluation|].
  refute_by_evaluation.
Qed.

(** A repeated call can also add a certain fact: in the run of C1, making
    the last observation again puts (0,1) in [safes]. *)
Lemma second_call_extends_safes :
  ((0, 1) ∉ MinesweeperAI.safes (play game_c obs_c))
  ∧ (0, 1) ∈ MinesweeperAI.safes (MinesweeperAI.add_knowledge (play game_c obs_c) (0, 2) 1).
Proof. split; by_evaluation. Qed.

(** C5. Two equal sentences are retained. In the run of C3 the first two
    sentences of the knowledge base are both {(0,2),(1,1)} = 1: the older
    one was {(0,0),(0,2),(1,0),(1,1)} = 3 until (0,0) and (1,0) were marked
    as mines. *)
Theorem C5_equal_sentences_retained :
  reachable game_a (play game_a obs_a)
  ∧ MinesweeperAI.knowledge (play game_a obs_a) !! 0%nat
    = Some (Sentence.mk {[ (0, 2); (1, 1) ]} 1)
  ∧ MinesweeperAI.knowledge (play game_a obs_a) !! 1%nat
    = Some (Sentence.mk {[ (0, 2); (1, 1) ]} 1)
  ∧ ¬ no_equal_pair (MinesweeperAI.knowledge (play game_a obs_a)).
Proof.
  split; [apply reachable_play; by_evaluation|].
  assert (MinesweeperAI.knowledge (play game_a obs_a) !! 0%nat
          = Some (Sentence.mk {[ (0, 2); (1, 1) ]} 1)) as H0 by by_evaluation.
  assert (MinesweeperAI.knowledge (play game_a obs_a) !! 1%nat
          = Some (Sentence.mk {[ (0, 2); (1, 1) ]} 1)) as H1 by by_evaluation.
  split; [exact H0|]. split; [exact H1|]. unfold no_equal_pair. intros Hnone.
  apply (Hnone 0%nat 1%nat (Sentence.mk {[ (0, 2); (1, 1) ]} 1)
           (Sentence.mk {[ (0, 2); (1, 1) ]} 1)); [lia | exact H0 | exact H1 | by split].
Qed.

(** ** Soundness: the agent only holds what is true of the board *)

Section Soundness.

Context (g : Minesweeper.t).

(** *** Counting mines in a set of cells *)

Lemma mine_count_empty : mine_count g ∅ = 0.
Proof.
  unfold mine_count.
  assert (filter (mine_at g) (∅ : gset Cell) = ∅) as ->
    by (apply set_eq; intros c; rewrite elem_of_filter; set_solver).
  by rewrite size_empty.
Qed.

Lemma mine_count_difference (X Y : gset Cell) :
  Y ⊆ X → mine_count g (X ∖ Y) = mine_count g X - mine_count g Y.
Proof.
  intros HYX. unfold mine_count.
  assert (filter (mine_at g) (X ∖ Y) = filter (mine_at g) X ∖ filter (mine_at g) Y) as ->.
  { apply set_eq. intros c. rewrite elem_of_difference, !elem_of_filter. set_solver. }
  assert (filter (mine_at g) Y ⊆ filter (mine_at g) X) as Hsub.
  { intros c. rewrite !elem_of_filter. set_solver. }
  rewrite size_difference by assumption.
  apply subseteq_size in Hsub. lia.
Qed.

Lemma mine_count_singleton (c : Cell) :
  mine_count g {[c]} = if decide (mine_at g c) then 1 else 0.
Proof.
  unfold mine_count. destruct (decide (mine_at g c)) as [Hc|Hc].
  - assert (filter (mine_at g) ({[c]} : gset Cell) = {[c]}) as ->
      by (apply set_eq; intros c'; rewrite elem_of_filter; set_solver).
    by rewrite size_singleton.
  - assert (filter (mine_at g) ({[c]} : gset Cell) = ∅) as ->
      by (apply set_eq; intros c'; rewrite elem_of_filter; set_solver).
    by rewrite size_empty.
Qed.

Lemma mine_count_remove (X : gset Cell) (c : Cell) :
  c ∈ X →
  mine_count g (X ∖ {[c]}) = mine_count g X - (if decide (mine_at g c) then 1 else 0).
Proof.
  intros Hc. rewrite mine_count_difference by set_solver.
  by rewrite mine_count_singleton.
Qed.

Lemma mine_count_remove_absent (X : gset Cell) (c : Cell) :
  c ∉ X → X ∖ {[c]} = X.
Proof. set_solver. Qed.

Lemma mine_count_zero (X : gset Cell) (c : Cell) :
  mine_count g X = 0 → c ∈ X → ¬ mine_at g c.
Proof.
  unfold mine_count. intros Hz Hc Hm.
  assert (filter (mine_at g) X = ∅) as Hempty by (apply size_zero_empty; lia).
  assert (c ∈ filter (mine_at g) X) as Hin by (apply elem_of_filter; by split).
  rewrite Hempty in Hin. set_solver.
Qed.

Lemma mine_count_full (X : gset Cell) (c : Cell) :
  mine_count g X = Z.of_nat (size X) → c ∈ X → mine_at g c.
Proof.
  unfold mine_count. intros Hfull Hc.
  assert (filter (mine_at g) X = X) as Heq.
  { apply set_subseteq_size_eq; [|lia]. intros c'. rewrite elem_of_filter. tauto. }
  rewrite <- Heq in Hc. by apply elem_of_filter in Hc as [Hm _].
Qed.

Lemma mine_count_list (l : list Cell) :
  NoDup l → mine_count g (list_to_set l) = Z.of_nat (length (filter (mine_at g) l)).
Proof.
  intros Hl. unfold mine_count. f_equal.
  rewrite <- (size_list_to_set (C:=gset Cell)) by by apply NoDup_filter.
  f_equal. apply set_eq. intros c.
  rewrite elem_of_filter, !elem_of_list_to_set, list_elem_of_filter. tauto.
Qed.

(** *** Sentences stay true when a true fact is marked *)

Lemma sentence_true_mark_safe (s : Sentence.t) (c : Cell) :
  sentence_true g s → ¬ mine_at g c → sentence_true g (Sentence.mark_safe c s).
Proof.
  unfold sentence_true, Sentence.mark_safe. simpl. intros Hs Hc.
  destruct (decide (c ∈ Sentence.cells s)) as [Hin|Hin].
  - rewrite mine_count_remove by assumption. rewrite decide_False by assumption. lia.
  - by rewrite mine_count_remove_absent.
Qed.

Lemma sentence_true_mark_mine (s : Sentence.t) (c : Cell) :
  sentence_true g s → mine_at g c → sentence_true g (Sentence.mark_mine c s).
Proof.
  unfold sentence_true, Sentence.mark_mine. intros Hs Hc.
  destruct (decide (c ∈ Sentence.cells s)) as [Hin|Hin].
  - rewrite bool_decide_eq_true_2 by assumption. simpl.
    rewrite mine_count_remove by assumption. rewrite decide_True by assumption. lia.
  - by rewrite bool_decide_eq_false_2.
Qed.

Lemma known_safes_true (s : Sentence.t) (c : Cell) :
  sentence_true g s → c ∈ Sentence.known_safes s → ¬ mine_at g c.
Proof.
  unfold sentence_true. intros Hs [Hc Hz]%known_safes_elem.
  apply (mine_count_zero (Sentence.cells s)); [lia | assumption].
Qed.

Lemma known_mines_true (s : Sentence.t) (c : Cell) :
  sentence_true g s → c ∈ Sentence.known_mines s → mine_at g c.
Proof.
  unfold sentence_true. intros Hs [Hc Hfull]%known_mines_elem.
  apply (mine_count_full (Sentence.cells s)); [lia | assumption].
Qed.

Lemma derived_true (s1 s2 : Sentence.t) :
  sentence_true g s1 → sentence_true g s2 →
  Sentence.cells s1 ⊆ Sentence.cells s2 →
  sentence_true g (derived s1 s2).
Proof.
  unfold sentence_true, derived. simpl. intros H1 H2 Hsub.
  rewrite mine_count_difference by assumption. lia.
Qed.

(** *** The agent's operations keep it sound *)

Lemma sound_set_knowledge (st : MinesweeperAI.t) (kb : list Sentence.t) :
  sound g st → Forall (sentence_true g) kb → sound g (MinesweeperAI.set_knowledge st kb).
Proof. intros [Hh Hw Hm Hs Hmv _] Hkb. constructor; simpl; assumption. Qed.

Lemma sound_mark_safe (st : MinesweeperAI.t) (c : Cell) :
  sound g st → ¬ mine_at g c → sound g (MinesweeperAI.mark_safe st c).
Proof.
  intros [Hh Hw Hm Hs Hmv Hkb] Hc. constructor; simpl; try assumption.
  - intros c' [->%elem_of_singleton | Hc']%elem_of_union; [assumption | by apply Hs].
  - set_solver.
  - apply Forall_fmap. eapply Forall_impl; [exact Hkb|].
    intros s Hs'. by apply sentence_true_mark_safe.
Qed.

Lemma sound_mark_mine (st : MinesweeperAI.t) (c : Cell) :
  sound g st → mine_at g c → sound g (MinesweeperAI.mark_mine st c).
Proof.
  intros [Hh Hw Hm Hs Hmv Hkb] Hc. constructor; simpl; try assumption.
  - intros c' [->%elem_of_singleton | Hc']%elem_of_union; [assumption | by apply Hm].
  - apply Forall_fmap. eapply Forall_impl; [exact Hkb|].
    intros s Hs'. by apply sentence_true_mark_mine.
Qed.

Lemma sound_lookup (st : MinesweeperAI.t) (k : nat) (s : Sentence.t) :
  sound g st → MinesweeperAI.knowledge st !! k = Some s → sentence_true g s.
Proof. intros Hst Hk. eapply Forall_lookup_1; [apply (sound_knowledge g st Hst) | exact Hk]. Qed.

Lemma sound_visit (k : nat) (st : MinesweeperAI.t) :
  sound g st → sound g (MinesweeperAI.visit k st).
Proof.
  intros Hst. unfold MinesweeperAI.visit.
  destruct (MinesweeperAI.knowledge st !! k) as [s|] eqn:Hk; [|assumption].
  set (st1 := foldl MinesweeperAI.mark_safe st (elements (Sentence.known_safes s))).
  assert (sound g st1) as Hst1.
  { apply foldl_invariant; [|assumption].
    intros st' c Hc Hst'. apply sound_mark_safe; [assumption|].
    apply (known_safes_true s); [exact (sound_lookup st k s Hst Hk) | by apply elem_of_elements]. }
  destruct (MinesweeperAI.knowledge st1 !! k) as [s'|] eqn:Hk'; [|assumption].
  apply foldl_invariant; [|assumption].
  intros st' c Hc Hst'. apply sound_mark_mine; [assumption|].
  apply (known_mines_true s'); [exact (sound_lookup st1 k s' Hst1 Hk') | by apply elem_of_elements].
Qed.

Lemma sound_scan (n : nat) (st : MinesweeperAI.t) :
  sound g st → sound g (MinesweeperAI.scan n st).
Proof.
  revert st. induction n as [|n IH]; intros st Hst; simpl; [assumption|].
  by apply IH, sound_visit.
Qed.

Lemma sound_mark_mine_or_safe (st : MinesweeperAI.t) :
  sound g st → sound g (MinesweeperAI.mark_mine_or_safe st).
Proof. apply sound_scan. Qed.

Lemma sound_append_if_new (s : Sentence.t) (st : MinesweeperAI.t) :
  sound g st → sentence_true g s → sound g (MinesweeperAI.append_if_new s st).
Proof.
  intros Hst Hs. unfold MinesweeperAI.append_if_new.
  destruct (sentence_in s (MinesweeperAI.knowledge st)); [assumption|].
  apply sound_set_knowledge; [assumption|].
  apply Forall_app_2; [apply (sound_knowledge g st Hst) | by constructor].
Qed.

Lemma sound_prune (st : MinesweeperAI.t) :
  sound g st → sound g (MinesweeperAI.prune st).
Proof.
  intros Hst. apply sound_set_knowledge; [assumption|].
  apply Forall_forall. intros s [_ Hs]%list_elem_of_filter.
  revert s Hs. apply Forall_forall, (sound_knowledge g st Hst).
Qed.

Lemma sound_derive_step (set1 : gset Cell) (count1 : Z) (st : MinesweeperAI.t) (m : nat) :
  sentence_true g (Sentence.mk set1 count1) →
  sound g st → sound g (MinesweeperAI.derive_step set1 count1 st m).
Proof.
  intros H1 Hst. unfold MinesweeperAI.derive_step.
  destruct (MinesweeperAI.knowledge st !! m) as [s2|] eqn:Hm; [|assumption].
  case_bool_decide as Hsub; [|assumption].
  apply sound_append_if_new; [assumption|].
  apply (derived_true (Sentence.mk set1 count1) s2);
    [assumption | exact (sound_lookup st m s2 Hst Hm) | assumption].
Qed.

Lemma sound_derive_from (k : nat) (st : MinesweeperAI.t) :
  sound g st → sound g (MinesweeperAI.derive_from k st).
Proof.
  intros Hst. unfold MinesweeperAI.derive_from.
  destruct (MinesweeperAI.knowledge st !! k) as [s1|] eqn:Hk; [|assumption].
  apply sound_mark_mine_or_safe.
  apply foldl_invariant; [|assumption].
  intros st' m _ Hst'. apply sound_derive_step; [|assumption].
  pose proof (sound_lookup st k s1 Hst Hk) as Hs1. by destruct s1.
Qed.

Lemma sound_infer (n : nat) (st : MinesweeperAI.t) :
  sound g st → sound g (MinesweeperAI.infer n st).
Proof.
  revert st. induction n as [|n IH]; intros st Hst; simpl; [assumption|].
  by apply IH, sound_derive_from.
Qed.

Lemma sound_record_move (st : MinesweeperAI.t) (cell : Cell) :
  sound g st → Minesweeper.is_mine g cell = Some false →
  sound g (MinesweeperAI.record_move st cell).
Proof.
  intros [Hh Hw Hm Hs Hmv Hkb] Hcell.
  assert (¬ mine_at g cell) as Hsafe by (unfold mine_at; congruence).
  constructor; simpl; try assumption.
  - intros c [->%elem_of_singleton | Hc]%elem_of_union; [assumption | by apply Hs].
  - set_solver.
  - apply Forall_fmap. eapply Forall_impl; [exact Hkb|].
    intros s Hs'. by apply sentence_true_mark_safe.
Qed.

Lemma sound_fresh : sound g (fresh_agent g).
Proof.
  constructor; simpl; try reflexivity; set_solver.
Qed.

(** *** What the board reports *)

Lemma range_shift (i : Z) : range (i - 1) (i + 2) = Z.add i <$> range (-1) 2.
Proof.
  unfold range. rewrite fmap_add_seqZ. f_equal; lia.
Qed.

Lemma foldl_block {A} (f : A → Cell → A) (a : A) (cell : Cell) :
  foldl (λ acc x, foldl (λ acc y, f acc (x, y)) acc (range (cell.2 - 1) (cell.2 + 2)))
        a (range (cell.1 - 1) (cell.1 + 2))
  = foldl f a (block cell).
Proof.
  rewrite !range_shift. destruct cell as [i j]. reflexivity.
Qed.

Lemma nearby_mines_block (cell : Cell) :
  Minesweeper.nearby_mines g cell
  = foldl (λ acc c, count ← acc; Minesweeper.nearby_step g cell count c)
          (Some 0) (block cell).
Proof.
  unfold Minesweeper.nearby_mines.
  apply (foldl_block (λ acc c, count ← acc; Minesweeper.nearby_step g cell count c)).
Qed.

Lemma nearby_step_counts (cell c : Cell) (a a' : Z) :
  Minesweeper.nearby_step g cell a c = Some a' →
  a' = a + (if decide (counted g cell c) then 1 else 0).
Proof.
  unfold Minesweeper.nearby_step.
  destruct (decide (counted g cell c)) as [(Hne & [Hi Hj] & Hm)|Hnot].
  - rewrite bool_decide_eq_false_2 by assumption.
    rewrite !bool_decide_eq_true_2 by assumption. simpl.
    unfold mine_at in Hm. rewrite Hm. simpl. by intros [= <-].
  - case_bool_decide as Hcell; [intros [= <-]; lia|].
    destruct (bool_decide (0 ≤ c.1 < Minesweeper.height g)
              && bool_decide (0 ≤ c.2 < Minesweeper.width g)) eqn:Hb;
      [|intros [= <-]; lia].
    apply andb_true_iff in Hb as [Hi%bool_decide_eq_true Hj%bool_decide_eq_true].
    destruct (Minesweeper.is_mine g c) as [[]|] eqn:Hm; simpl; intros [= <-]; [|lia].
    exfalso. apply Hnot. split; [assumption | split; [by split | exact Hm]].
Qed.

Lemma nearby_fold_none (cell : Cell) (l : list Cell) :
  foldl (λ acc c, count ← acc; Minesweeper.nearby_step g cell count c) None l = None.
Proof. induction l as [|c l IH]; simpl; [reflexivity | exact IH]. Qed.

Lemma nearby_fold (cell : Cell) (l : list Cell) (a n : Z) :
  foldl (λ acc c, count ← acc; Minesweeper.nearby_step g cell count c) (Some a) l = Some n →
  n = a + Z.of_nat (length (filter (counted g cell) l)).
Proof.
  revert a. induction l as [|c l IH]; intros a; simpl.
  - intros [= <-]. lia.
  - destruct (Minesweeper.nearby_step g cell a c) as [a'|] eqn:Hstep.
    + intros Hfold. apply IH in Hfold. apply nearby_step_counts in Hstep.
      rewrite filter_cons. destruct (decide (counted g cell c)); simpl; lia.
    + rewrite nearby_fold_none. discriminate.
Qed.

Lemma nearby_mines_counts (cell : Cell) (n : Z) :
  Minesweeper.nearby_mines g cell = Some n →
  n = Z.of_nat (length (filter (counted g cell) (block cell))).
Proof.
  rewrite nearby_mines_block. intros Hn. apply nearby_fold in Hn. lia.
Qed.

(** *** The sentence built from a true observation is true *)

Lemma counted_split (st : MinesweeperAI.t) (cell : Cell) (l : list Cell) :
  sound g st →
  length (filter (counted g cell) l)
  = (length (filter (discounted st cell) l)
     + length (filter (mine_at g) (filter (undetermined st cell) l)))%nat.
Proof.
  intros [Hh Hw Hm Hs Hmv _].
  induction l as [|c l IH]; [reflexivity|].
  rewrite !filter_cons.
  assert (c ∈ MinesweeperAI.safes st ∪ MinesweeperAI.moves_made st → ¬ mine_at g c) as Hsafe.
  { intros [?|?]%elem_of_union; apply Hs; [assumption | by apply Hmv]. }
  pose proof (Hm c) as Hmine.
  destruct (decide (counted g cell c)) as [Hc|Hc];
    destruct (decide (discounted st cell c)) as [Hd|Hd];
    destruct (decide (undetermined st cell c)) as [Hu|Hu];
    rewrite ?filter_cons; try destruct (decide (mine_at g c)) as [Hmc|Hmc];
    simpl; try lia; exfalso;
    unfold counted, discounted, undetermined in *; rewrite ?Hh, ?Hw in *; tauto.
Qed.

Lemma new_sentence_true (st : MinesweeperAI.t) (cell : Cell) (count : Z) :
  sound g st →
  Minesweeper.nearby_mines g cell = Some count →
  sentence_true g (MinesweeperAI.new_sentence st cell count).
Proof.
  intros Hst Hcount. unfold sentence_true.
  rewrite new_sentence_block. cbn [Sentence.cells Sentence.count].
  destruct (neighbour_fold st cell (block cell) (∅, count)) as [-> ->]. cbn [fst snd].
  rewrite union_empty_l_L.
  rewrite mine_count_list by apply NoDup_filter, block_NoDup.
  apply nearby_mines_counts in Hcount.
  rewrite (counted_split st cell (block cell) Hst) in Hcount. lia.
Qed.

Lemma sound_add_knowledge (st : MinesweeperAI.t) (cell : Cell) (count : Z) :
  sound g st → valid_observation g cell count →
  sound g (MinesweeperAI.add_knowledge st cell count).
Proof.
  intros Hst [Hsafe Hcount]. unfold MinesweeperAI.add_knowledge.
  apply sound_infer, sound_prune, sound_mark_mine_or_safe.
  pose proof (sound_record_move st cell Hst Hsafe) as Hst1.
  apply sound_append_if_new; [assumption|].
  by apply new_sentence_true.
Qed.

Lemma reachable_sound (st : MinesweeperAI.t) : reachable g st → sound g st.
Proof.
  induction 1 as [|st cell count _ IH Hobs]; [apply sound_fresh|].
  by apply sound_add_knowledge.
Qed.

(** C6. When every call of [add_knowledge] is given a cell that holds no
    mine and the count the board reports for it, no cell is ever in both
    [mines] and [safes]. *)
Theorem C6_mines_and_safes_disjoint (st : MinesweeperAI.t) :
  reachable g st → MinesweeperAI.mines st ∩ MinesweeperAI.safes st = ∅.
Proof.
  intros [_ _ Hm Hs _ _]%reachable_sound.
  apply set_eq. intros c. split; [|set_solver].
  intros [Hcm Hcs]%elem_of_intersection. exfalso. by apply (Hs c Hcs), Hm.
Qed.

End Soundness.

Lemma C6_witness :
  reachable game_c (play game_c obs_c)
  ∧ MinesweeperAI.mines (play game_c obs_c) ∩ MinesweeperAI.safes (play game_c obs_c) = ∅.
Proof.
  assert (reachable game_c (play game_c obs_c)) as Hreach
    by (apply reachable_play; by_evaluation).
  split; [exact Hreach | exact (C6_mines_and_safes_disjoint game_c _ Hreach)].
Defined.



(** ** What the knowledge-base bookkeeping does achieve *)

(** Right after the removal step no sentence is empty. *)
Lemma prune_no_empty (st : MinesweeperAI.t) :
  no_empty_sentence (MinesweeperAI.knowledge (MinesweeperAI.prune st)).
Proof.
  unfold no_empty_sentence, MinesweeperAI.prune. simpl.
  apply Forall_forall. intros s [Hpos _]%list_elem_of_filter Hempty.
  rewrite Hempty, size_empty in Hpos. lia.
Qed.

(** Appending through the membership test never creates an equal pair. *)
Lemma append_if_new_no_equal_pair (s : Sentence.t) (st : MinesweeperAI.t) :
  no_equal_pair (MinesweeperAI.knowledge st) →
  no_equal_pair (MinesweeperAI.knowledge (MinesweeperAI.append_if_new s st)).
Proof.
  intros Hkb. unfold MinesweeperAI.append_if_new.
  destruct (sentence_in s (MinesweeperAI.knowledge st)) eqn:Hin; [assumption|].
  assert (∀ s', s' ∈ MinesweeperAI.knowledge st → ¬ same_sentence s s') as Hfresh.
  { intros s' Hs' Hsame.
    assert (sentence_in s (MinesweeperAI.knowledge st) = true) as Htrue
      by (apply sentence_in_spec; eauto).
    congruence. }
  simpl. intros i j s1 s2 Hij Hi Hj [Hc Hn].
  apply lookup_app_Some in Hi as [Hi | [Hli Hi]];
    apply lookup_app_Some in Hj as [Hj | [Hlj Hj]].
  - apply (Hkb i j s1 s2 Hij Hi Hj). by split.
  - apply list_lookup_singleton_Some in Hj as [_ <-].
    apply (Hfresh s1); [by eapply list_elem_of_lookup_2 | by split].
  - apply list_lookup_singleton_Some in Hi as [_ <-].
    apply (Hfresh s2); [by eapply list_elem_of_lookup_2 | by split].
  - apply list_lookup_singleton_Some in Hi as [Hi _].
    apply list_lookup_singleton_Some in Hj as [Hj _]. lia.
Qed.
(** * Further properties of the code *)

(** ** Sentences *)

(** X2. What a sentence reports as known mines or known safes are cells of
    the sentence, and no cell is reported as both. *)
Theorem known_cells_within (s : Sentence.t) :
  Sentence.known_mines s ⊆ Sentence.cells s
  ∧ Sentence.known_safes s ⊆ Sentence.cells s
  ∧ Sentence.known_mines s ∩ Sentence.known_safes s = ∅.
Proof.
  split; [|split].
  - intros c [Hc _]%known_mines_elem. exact Hc.
  - intros c [Hc _]%known_safes_elem. exact Hc.
  - apply set_eq. intros c. split; [|set_solver].
    intros [[Hc Hfull]%known_mines_elem [_ Hzero]%known_safes_elem]%elem_of_intersection.
    assert (Sentence.cells s = ∅) as Hempty by (apply size_zero_empty; lia).
    rewrite Hempty in Hc. set_solver.
Qed.

(** X3. Marking a cell that the sentence does not hold changes nothing;
    marking a cell it holds removes that cell and nothing else, and
    [mark_mine] lowers the count by one while [mark_safe] keeps it. *)
Theorem sentence_mark_effect (c : Cell) (s : Sentence.t) :
  (c ∉ Sentence.cells s → Sentence.mark_mine c s = s ∧ Sentence.mark_safe c s = s)
  ∧ (c ∈ Sentence.cells s →
       Sentence.cells (Sentence.mark_mine c s) = Sentence.cells s ∖ {[c]}
       ∧ Sentence.count (Sentence.mark_mine c s) = Sentence.count s - 1
       ∧ Sentence.cells (Sentence.mark_safe c s) = Sentence.cells s ∖ {[c]}
       ∧ Sentence.count (Sentence.mark_safe c s) = Sentence.count s
       ∧ size (Sentence.cells s) = S (size (Sentence.cells s ∖ {[c]}))).
Proof.
  split.
  - intros Hc. unfold Sentence.mark_mine, Sentence.mark_safe.
    rewrite bool_decide_eq_false_2 by assumption. split; [reflexivity|].
    destruct s as [X n]. simpl in *. f_equal. set_solver.
  - intros Hc. unfold Sentence.mark_mine, Sentence.mark_safe.
    rewrite bool_decide_eq_true_2 by assumption. simpl.
    repeat split; try reflexivity.
    rewrite size_difference by set_solver. rewrite size_singleton.
    assert (size (Sentence.cells s) ≠ 0%nat); [|lia].
    intros Hz. apply size_zero_empty in Hz. rewrite Hz in Hc. set_solver.
Qed.

Lemma sentence_mark_safe_safe (c1 c2 : Cell) (s : Sentence.t) :
  Sentence.mark_safe c1 (Sentence.mark_safe c2 s)
  = Sentence.mark_safe c2 (Sentence.mark_safe c1 s).
Proof. unfold Sentence.mark_safe. simpl. f_equal. set_solver. Qed.

Lemma sentence_mark_mine_mine (c1 c2 : Cell) (s : Sentence.t) :
  Sentence.mark_mine c1 (Sentence.mark_mine c2 s)
  = Sentence.mark_mine c2 (Sentence.mark_mine c1 s).
Proof.
  destruct (decide (c1 = c2)) as [->|Hne]; [reflexivity|].
  destruct s as [X n]. unfold Sentence.mark_mine. simpl.
  destruct (decide (c1 ∈ X)) as [H1|H1]; destruct (decide (c2 ∈ X)) as [H2|H2].
  - rewrite (bool_decide_eq_true_2 _ H1), (bool_decide_eq_true_2 _ H2). simpl.
    rewrite !bool_decide_eq_true_2 by set_solver.
    f_equal; set_solver.
  - rewrite (bool_decide_eq_true_2 _ H1), (bool_decide_eq_false_2 _ H2). simpl.
    rewrite (bool_decide_eq_true_2 _ H1).
    rewrite bool_decide_eq_false_2 by set_solver. reflexivity.
  - rewrite (bool_decide_eq_false_2 _ H1), (bool_decide_eq_true_2 _ H2). simpl.
    rewrite (bool_decide_eq_true_2 _ H2).
    rewrite bool_decide_eq_false_2 by set_solver. reflexivity.
  - rewrite (bool_decide_eq_false_2 _ H1), (bool_decide_eq_false_2 _ H2). simpl.
    rewrite (bool_decide_eq_false_2 _ H1), (bool_decide_eq_false_2 _ H2). reflexivity.
Qed.

Lemma sentence_mark_safe_mine (c1 c2 : Cell) (s : Sentence.t) :
  c1 ≠ c2 →
  Sentence.mark_safe c1 (Sentence.mark_mine c2 s)
  = Sentence.mark_mine c2 (Sentence.mark_safe c1 s).
Proof.
  intros Hne. unfold Sentence.mark_mine, Sentence.mark_safe. simpl.
  destruct (decide (c2 ∈ Sentence.cells s)) as [H2|H2].
  - rewrite !bool_decide_eq_true_2 by set_solver. simpl. f_equal. set_solver.
  - rewrite !bool_decide_eq_false_2 by set_solver. reflexivity.
Qed.

(** X4. The marking operations of a sentence commute with each other (a
    mine and a safe marking when they concern different cells), and
    marking the same cell twice is marking it once. *)
Theorem sentence_marks_compose (c1 c2 : Cell) (s : Sentence.t) :
  Sentence.mark_safe c1 (Sentence.mark_safe c2 s)
  = Sentence.mark_safe c2 (Sentence.mark_safe c1 s)
  ∧ Sentence.mark_mine c1 (Sentence.mark_mine c2 s)
    = Sentence.mark_mine c2 (Sentence.mark_mine c1 s)
  ∧ (c1 ≠ c2 →
     Sentence.mark_safe c1 (Sentence.mark_mine c2 s)
     = Sentence.mark_mine c2 (Sentence.mark_safe c1 s))
  ∧ Sentence.mark_safe c1 (Sentence.mark_safe c1 s) = Sentence.mark_safe c1 s
  ∧ Sentence.mark_mine c1 (Sentence.mark_mine c1 s) = Sentence.mark_mine c1 s.
Proof.
  split; [apply sentence_mark_safe_safe|].
  split; [apply sentence_mark_mine_mine|].
  split; [apply sentence_mark_safe_mine|].
  split.
  - unfold Sentence.mark_safe. simpl. f_equal. set_solver.
  - unfold Sentence.mark_mine.
    destruct (decide (c1 ∈ Sentence.cells s)) as [H1|H1].
    + rewrite (bool_decide_eq_true_2 _ H1). simpl.
      rewrite bool_decide_eq_false_2 by set_solver. reflexivity.
    + rewrite !(bool_decide_eq_false_2 _ H1). reflexivity.
Qed.

(** ** Marking cells in the whole knowledge base *)

Lemma agent_eq (st st' : MinesweeperAI.t) :
  MinesweeperAI.height st = MinesweeperAI.height st' →
  MinesweeperAI.width st = MinesweeperAI.width st' →
  MinesweeperAI.moves_made st = MinesweeperAI.moves_made st' →
  MinesweeperAI.mines st = MinesweeperAI.mines st' →
  MinesweeperAI.safes st = MinesweeperAI.safes st' →
  MinesweeperAI.knowledge st = MinesweeperAI.knowledge st' →
  st = st'.
Proof. destruct st, st'. simpl. by intros -> -> -> -> -> ->. Qed.

(** X5. Marking the cells of a list as safe, one after the other, adds
    them to [safes] and removes them from every sentence, counts
    unchanged; nothing else changes, and the order of the list plays no
    part. *)
Theorem mark_safe_all (l : list Cell) (st : MinesweeperAI.t) :
  foldl MinesweeperAI.mark_safe st l
  = {| MinesweeperAI.height := MinesweeperAI.height st;
       MinesweeperAI.width := MinesweeperAI.width st;
       MinesweeperAI.moves_made := MinesweeperAI.moves_made st;
       MinesweeperAI.mines := MinesweeperAI.mines st;
       MinesweeperAI.safes := list_to_set l ∪ MinesweeperAI.safes st;
       MinesweeperAI.knowledge :=
         (λ s, Sentence.mk (Sentence.cells s ∖ list_to_set l) (Sentence.count s))
           <$> MinesweeperAI.knowledge st |}.
Proof.
  revert st. induction l as [|c l IH]; intros st; simpl.
  - apply agent_eq; simpl; try reflexivity; [set_solver|].
    rewrite <- (list_fmap_id (MinesweeperAI.knowledge st)) at 1.
    apply list_fmap_ext. intros _ [X n] _. simpl. f_equal. set_solver.
  - rewrite IH. apply agent_eq; simpl; try reflexivity; [set_solver|].
    rewrite <- list_fmap_compose. apply list_fmap_ext.
    intros _ s _. simpl. f_equal. set_solver.
Qed.

Lemma size_inter_insert (X L : gset Cell) (c : Cell) :
  c ∈ X →
  size (X ∩ ({[c]} ∪ L)) = S (size ((X ∖ {[c]}) ∩ L)).
Proof.
  intros Hc.
  assert (X ∩ ({[c]} ∪ L) = {[c]} ∪ (X ∖ {[c]}) ∩ L) as ->.
  { apply set_eq. intros c'. destruct (decide (c' = c)); set_solver. }
  rewrite size_union by set_solver. by rewrite size_singleton.
Qed.

(** X6. Marking the cells of a list as mines, one after the other, adds
    them to [mines], removes them from every sentence and lowers each
    sentence's count by the number of its cells that were removed; nothing
    else changes, and the order of the list plays no part. *)
Theorem mark_mine_all (l : list Cell) (st : MinesweeperAI.t) :
  foldl MinesweeperAI.mark_mine st l
  = {| MinesweeperAI.height := MinesweeperAI.height st;
       MinesweeperAI.width := MinesweeperAI.width st;
       MinesweeperAI.moves_made := MinesweeperAI.moves_made st;
       MinesweeperAI.mines := list_to_set l ∪ MinesweeperAI.mines st;
       MinesweeperAI.safes := MinesweeperAI.safes st;
       MinesweeperAI.knowledge :=
         (λ s, Sentence.mk (Sentence.cells s ∖ list_to_set l)
                 (Sentence.count s - Z.of_nat (size (Sentence.cells s ∩ list_to_set l))))
           <$> MinesweeperAI.knowledge st |}.
Proof.
  revert st. induction l as [|c l IH]; intros st; simpl.
  - apply agent_eq; simpl; try reflexivity; [set_solver|].
    rewrite <- (list_fmap_id (MinesweeperAI.knowledge st)) at 1.
    apply list_fmap_ext. intros _ [X n] _. simpl.
    assert (X ∩ ∅ = ∅) as -> by set_solver. rewrite size_empty.
    f_equal; [set_solver | lia].
  - rewrite IH. apply agent_eq; simpl; try reflexivity; [set_solver|].
    rewrite <- list_fmap_compose. apply list_fmap_ext.
    intros _ [X n] _. unfold Sentence.mark_mine. simpl.
    destruct (decide (c ∈ X)) as [Hc|Hc].
    + rewrite (bool_decide_eq_true_2 _ Hc). simpl.
      rewrite (size_inter_insert X (list_to_set l) c Hc).
      f_equal; [set_solver | lia].
    + rewrite (bool_decide_eq_false_2 _ Hc). simpl.
      assert (X ∩ ({[c]} ∪ list_to_set l) = X ∩ list_to_set l) as -> by set_solver.
      f_equal. set_solver.
Qed.

(** ** One visit of the propagation pass *)

Lemma visit_unfold (k : nat) (st : MinesweeperAI.t) (s : Sentence.t) :
  MinesweeperAI.knowledge st !! k = Some s →
  MinesweeperAI.visit k st
  = {| MinesweeperAI.height := MinesweeperAI.height st;
       MinesweeperAI.width := MinesweeperAI.width st;
       MinesweeperAI.moves_made := MinesweeperAI.moves_made st;
       MinesweeperAI.mines :=
         Sentence.known_mines
           (Sentence.mk (Sentence.cells s ∖ Sentence.known_safes s) (Sentence.count s))
         ∪ MinesweeperAI.mines st;
       MinesweeperAI.safes := Sentence.known_safes s ∪ MinesweeperAI.safes st;
       MinesweeperAI.knowledge :=
         (λ s', Sentence.mk
                  (Sentence.cells s' ∖ Sentence.known_safes s
                   ∖ Sentence.known_mines
                       (Sentence.mk (Sentence.cells s ∖ Sentence.known_safes s)
                                    (Sentence.count s)))
                  (Sentence.count s'
                   - Z.of_nat (size ((Sentence.cells s' ∖ Sentence.known_safes s)
                                     ∩ Sentence.known_mines
                                         (Sentence.mk (Sentence.cells s ∖ Sentence.known_safes s)
                                                      (Sentence.count s))))))
           <$> MinesweeperAI.knowledge st |}.
Proof.
  intros Hk. unfold MinesweeperAI.visit. rewrite Hk.
  rewrite mark_safe_all. cbn [MinesweeperAI.knowledge].
  rewrite list_lookup_fmap, Hk. cbn [fmap option_fmap option_map].
  rewrite mark_mine_all. rewrite !list_to_set_elements_L.
  apply agent_eq; cbn; try reflexivity.
  rewrite <- list_fmap_compose. reflexivity.
Qed.

Lemma known_nothing_empty :
  Sentence.known_mines (Sentence.mk ∅ 0) = ∅ ∧ Sentence.known_safes (Sentence.mk ∅ 0) = ∅.
Proof.
  unfold Sentence.known_mines, Sentence.known_safes. simpl.
  split; first [reflexivity | destruct (bool_decide _); reflexivity].
Qed.

Lemma known_nothing_unresolved (X : gset Cell) (n : Z) :
  n ≠ 0 → Z.of_nat (size X) ≠ n →
  Sentence.known_mines (Sentence.mk X n) = ∅ ∧ Sentence.known_safes (Sentence.mk X n) = ∅.
Proof.
  intros Hn Hsize. unfold Sentence.known_mines, Sentence.known_safes. simpl.
  by rewrite !bool_decide_eq_false_2 by assumption.
Qed.

Lemma visited_sentence (X : gset Cell) (n : Z) (KS KM : gset Cell) :
  KS = Sentence.known_safes (Sentence.mk X n) →
  KM = Sentence.known_mines (Sentence.mk (X ∖ KS) n) →
  (Sentence.mk (X ∖ KS ∖ KM) (n - Z.of_nat (size ((X ∖ KS) ∩ KM))) = Sentence.mk X n
   ∧ n ≠ 0 ∧ Z.of_nat (size X) ≠ n)
  ∨ Sentence.mk (X ∖ KS ∖ KM) (n - Z.of_nat (size ((X ∖ KS) ∩ KM))) = Sentence.mk ∅ 0.
Proof.
  unfold Sentence.known_safes, Sentence.known_mines. simpl. intros -> ->.
  destruct (decide (n = 0)) as [->|Hn].
  - right. rewrite (bool_decide_eq_true_2 (0 = 0)) by reflexivity.
    assert (X ∖ X = ∅) as -> by set_solver.
    destruct (bool_decide (Z.of_nat (size (∅ : gset Cell)) = 0)).
    + assert ((∅ : gset Cell) ∩ ∅ = ∅) as -> by set_solver. rewrite size_empty.
      f_equal; first [set_solver | lia].
    + assert ((∅ : gset Cell) ∩ ∅ = ∅) as -> by set_solver. rewrite size_empty.
      f_equal; first [set_solver | lia].
  - rewrite (bool_decide_eq_false_2 (n = 0)) by assumption.
    assert (X ∖ ∅ = X) as -> by set_solver.
    destruct (decide (Z.of_nat (size X) = n)) as [Hfull|Hfull].
    + right. rewrite (bool_decide_eq_true_2 _ Hfull).
      assert (X ∩ X = X) as -> by set_solver.
      f_equal; first [set_solver | lia].
    + left. rewrite (bool_decide_eq_false_2 _ Hfull).
      assert (X ∩ ∅ = ∅) as -> by set_solver. rewrite size_empty.
      split; [|by split]. f_equal; first [set_solver | lia].
Qed.

(** X7. Once the pass has visited a sentence, that sentence reports
    nothing more: it is either unchanged, or emptied with count 0. *)
Theorem visit_resolves (k : nat) (st : MinesweeperAI.t) (s : Sentence.t) :
  MinesweeperAI.knowledge st !! k = Some s →
  ∃ s', MinesweeperAI.knowledge (MinesweeperAI.visit k st) !! k = Some s'
        ∧ Sentence.known_mines s' = ∅ ∧ Sentence.known_safes s' = ∅
        ∧ (s' = s ∨ s' = Sentence.mk ∅ 0).
Proof.
  intros Hk. rewrite (visit_unfold k st s Hk). cbn [MinesweeperAI.knowledge].
  rewrite list_lookup_fmap, Hk. cbn [fmap option_fmap option_map].
  eexists. split; [reflexivity|].
  destruct s as [X n]. cbn [Sentence.cells Sentence.count].
  destruct (visited_sentence X n _ _ eq_refl eq_refl) as [(-> & Hn & Hsize) | ->].
  - destruct (known_nothing_unresolved X n Hn Hsize) as [-> ->].
    split; [reflexivity | split; [reflexivity | by left]].
  - destruct known_nothing_empty as [-> ->].
    split; [reflexivity | split; [reflexivity | by right]].
Qed.

Lemma visit_resolves_witness :
  ∃ s', MinesweeperAI.knowledge (MinesweeperAI.visit 0 (play game_b obs_b)) !! 0%nat = Some s'
        ∧ Sentence.known_mines s' = ∅ ∧ Sentence.known_safes s' = ∅
        ∧ (s' = Sentence.mk {[ (0, 1); (1, 1) ]} 1 ∨ s' = Sentence.mk ∅ 0).
Proof.
  apply (visit_resolves 0 (play game_b obs_b)). by_evaluation.
Defined.

(** ** A pass that finds nothing changes nothing *)

Lemma visit_nothing_known (k : nat) (st : MinesweeperAI.t) :
  nothing_known (MinesweeperAI.knowledge st) → MinesweeperAI.visit k st = st.
Proof.
  intros Hkb. unfold MinesweeperAI.visit.
  destruct (MinesweeperAI.knowledge st !! k) as [s|] eqn:Hk; [|reflexivity].
  destruct (Forall_lookup_1 _ _ _ _ Hkb Hk) as [Hm Hs].
  rewrite Hs, elements_empty. simpl. rewrite Hk, Hm, elements_empty. reflexivity.
Qed.

Lemma scan_nothing_known (n : nat) (st : MinesweeperAI.t) :
  nothing_known (MinesweeperAI.knowledge st) → MinesweeperAI.scan n st = st.
Proof.
  intros Hkb. induction n as [|n IH]; simpl; [reflexivity|].
  by rewrite visit_nothing_known.
Qed.

Lemma mark_mine_or_safe_stable (st : MinesweeperAI.t) :
  nothing_known (MinesweeperAI.knowledge st) → MinesweeperAI.mark_mine_or_safe st = st.
Proof. apply scan_nothing_known. Qed.

(** ** What [add_knowledge] leaves alone *)

#[local] Instance same_board_refl : Reflexive same_board.
Proof. intros st. by repeat split. Qed.

#[local] Instance same_board_trans : Transitive same_board.
Proof. intros st1 st2 st3 (? & ? & ?) (? & ? & ?). repeat split; congruence. Qed.

Lemma visit_same_board (k : nat) (st : MinesweeperAI.t) :
  same_board st (MinesweeperAI.visit k st).
Proof.
  unfold MinesweeperAI.visit.
  destruct (MinesweeperAI.knowledge st !! k) as [s|]; [|reflexivity].
  set (st1 := foldl MinesweeperAI.mark_safe st (elements (Sentence.known_safes s))).
  assert (same_board st st1) as H1
    by (apply (foldl_related same_board); intros; by repeat split).
  destruct (MinesweeperAI.knowledge st1 !! k) as [s'|]; [|assumption].
  transitivity st1; [assumption|].
  apply (foldl_related same_board); intros; by repeat split.
Qed.

Lemma append_if_new_same_board (s : Sentence.t) (st : MinesweeperAI.t) :
  same_board st (MinesweeperAI.append_if_new s st).
Proof.
  unfold MinesweeperAI.append_if_new.
  destruct (sentence_in s (MinesweeperAI.knowledge st)); by repeat split.
Qed.

Lemma derive_from_same_board (k : nat) (st : MinesweeperAI.t) :
  same_board st (MinesweeperAI.derive_from k st).
Proof.
  unfold MinesweeperAI.derive_from.
  destruct (MinesweeperAI.knowledge st !! k) as [s1|]; [|reflexivity].
  etransitivity; [|apply (scan_related same_board), visit_same_board].
  apply (foldl_related same_board). intros st' m. unfold MinesweeperAI.derive_step.
  destruct (MinesweeperAI.knowledge st' !! m) as [s2|]; [|reflexivity].
  destruct (bool_decide _); [apply append_if_new_same_board | reflexivity].
Qed.

Lemma after_record_move_same_board (st : MinesweeperAI.t) (cell : Cell) (count : Z) :
  same_board (MinesweeperAI.record_move st cell) (MinesweeperAI.add_knowledge st cell count).
Proof.
  unfold MinesweeperAI.add_knowledge.
  etransitivity; [apply append_if_new_same_board|].
  etransitivity; [apply (scan_related same_board), visit_same_board|].
  etransitivity; [|apply (infer_related same_board), derive_from_same_board].
  by repeat split.
Qed.

Lemma after_record_move_grows (st : MinesweeperAI.t) (cell : Cell) (count : Z) :
  facts_included (MinesweeperAI.record_move st cell) (MinesweeperAI.add_knowledge st cell count).
Proof.
  unfold MinesweeperAI.add_knowledge.
  etransitivity; [apply append_if_new_grows|].
  etransitivity; [apply mark_mine_or_safe_grows|].
  etransitivity; [|apply (infer_related facts_included), derive_from_grows].
  apply set_knowledge_grows.
Qed.

(** X9. A call of [add_knowledge] keeps the board size, adds [cell] and
    nothing else to [moves_made], and leaves [cell] in [safes]. *)
Theorem add_knowledge_records_move (st : MinesweeperAI.t) (cell : Cell) (count : Z) :
  MinesweeperAI.height (MinesweeperAI.add_knowledge st cell count) = MinesweeperAI.height st
  ∧ MinesweeperAI.width (MinesweeperAI.add_knowledge st cell count) = MinesweeperAI.width st
  ∧ MinesweeperAI.moves_made (MinesweeperAI.add_knowledge st cell count)
    = {[cell]} ∪ MinesweeperAI.moves_made st
  ∧ cell ∈ MinesweeperAI.safes (MinesweeperAI.add_knowledge st cell count).
Proof.
  destruct (after_record_move_same_board st cell count) as (Hh & Hw & Hm).
  split; [by rewrite <- Hh|]. split; [by rewrite <- Hw|]. split; [by rewrite <- Hm|].
  destruct (after_record_move_grows st cell count) as (_ & Hs & _).
  apply Hs. simpl. set_solver.
Qed.

(** ** Invariants of every run, whatever the observations *)

Lemma add_knowledge_moves_in_safes (st : MinesweeperAI.t) (cell : Cell) (count : Z) :
  MinesweeperAI.moves_made st ⊆ MinesweeperAI.safes st →
  MinesweeperAI.moves_made (MinesweeperAI.add_knowledge st cell count)
  ⊆ MinesweeperAI.safes (MinesweeperAI.add_knowledge st cell count).
Proof.
  intros Hst.
  destruct (after_record_move_same_board st cell count) as (_ & _ & Hm).
  destruct (after_record_move_grows st cell count) as (_ & Hs & _).
  rewrite <- Hm. etransitivity; [|exact Hs]. simpl. set_solver.
Qed.

(** X10. Whatever the calls of [add_knowledge] made on a new agent, every
    cell of [moves_made] is in [safes]. *)
Theorem moves_made_within_safes (h w : Z) (obs : list (Cell * Z)) :
  MinesweeperAI.moves_made (observe_all (MinesweeperAI.__init__ h w) obs)
  ⊆ MinesweeperAI.safes (observe_all (MinesweeperAI.__init__ h w) obs).
Proof.
  unfold observe_all.
  apply (foldl_invariant
           (λ st, MinesweeperAI.moves_made st ⊆ MinesweeperAI.safes st)).
  - intros st o _. apply add_knowledge_moves_in_safes.
  - simpl. set_solver.
Qed.

Lemma cells_mark_mine (c : Cell) (s : Sentence.t) :
  Sentence.cells (Sentence.mark_mine c s) = Sentence.cells s ∖ {[c]}.
Proof.
  unfold Sentence.mark_mine. case_bool_decide as Hc; simpl; set_solver.
Qed.

Lemma clean_mark_safe (st : MinesweeperAI.t) (c : Cell) :
  clean st → clean (MinesweeperAI.mark_safe st c).
Proof.
  unfold clean. simpl. intros Hst. apply Forall_fmap.
  eapply Forall_impl; [exact Hst|]. intros s Hs. simpl. set_solver.
Qed.

Lemma clean_mark_mine (st : MinesweeperAI.t) (c : Cell) :
  clean st → clean (MinesweeperAI.mark_mine st c).
Proof.
  unfold clean. simpl. intros Hst. apply Forall_fmap.
  eapply Forall_impl; [exact Hst|]. intros s Hs. simpl.
  rewrite cells_mark_mine. set_solver.
Qed.

Lemma clean_visit (k : nat) (st : MinesweeperAI.t) :
  clean st → clean (MinesweeperAI.visit k st).
Proof.
  intros Hst. unfold MinesweeperAI.visit.
  destruct (MinesweeperAI.knowledge st !! k) as [s|]; [|assumption].
  set (st1 := foldl MinesweeperAI.mark_safe st (elements (Sentence.known_safes s))).
  assert (clean st1) as Hst1
    by (apply foldl_invariant; [intros; by apply clean_mark_safe | assumption]).
  destruct (MinesweeperAI.knowledge st1 !! k) as [s'|]; [|assumption].
  apply foldl_invariant; [intros; by apply clean_mark_mine | assumption].
Qed.

Lemma clean_scan (n : nat) (st : MinesweeperAI.t) :
  clean st → clean (MinesweeperAI.scan n st).
Proof.
  revert st. induction n as [|n IH]; intros st Hst; simpl; [assumption|].
  by apply IH, clean_visit.
Qed.

Lemma clean_append_if_new (s : Sentence.t) (st : MinesweeperAI.t) :
  clean st →
  Sentence.cells s ## MinesweeperAI.safes st ∪ MinesweeperAI.mines st →
  clean (MinesweeperAI.append_if_new s st).
Proof.
  intros Hst Hs. unfold MinesweeperAI.append_if_new.
  destruct (sentence_in s (MinesweeperAI.knowledge st)); [assumption|].
  unfold clean. simpl. apply Forall_app_2; [exact Hst | by constructor].
Qed.

Lemma clean_derive_from (k : nat) (st : MinesweeperAI.t) :
  clean st → clean (MinesweeperAI.derive_from k st).
Proof.
  intros Hst. unfold MinesweeperAI.derive_from.
  destruct (MinesweeperAI.knowledge st !! k) as [s1|]; [|assumption].
  apply clean_scan. apply foldl_invariant; [|assumption].
  intros st' m _ Hst'. unfold MinesweeperAI.derive_step.
  destruct (MinesweeperAI.knowledge st' !! m) as [s2|] eqn:Hm; [|assumption].
  destruct (bool_decide _); [|assumption].
  apply clean_append_if_new; [assumption|]. simpl.
  pose proof (Forall_lookup_1 _ _ _ _ Hst' Hm) as Hs2. simpl in Hs2. set_solver.
Qed.

Lemma clean_infer (n : nat) (st : MinesweeperAI.t) :
  clean st → clean (MinesweeperAI.infer n st).
Proof.
  revert st. induction n as [|n IH]; intros st Hst; simpl; [assumption|].
  by apply IH, clean_derive_from.
Qed.

Lemma new_sentence_clean (st : MinesweeperAI.t) (cell : Cell) (count : Z) :
  Sentence.cells (MinesweeperAI.new_sentence st cell count)
  ## MinesweeperAI.safes st ∪ MinesweeperAI.mines st.
Proof.
  rewrite new_sentence_block. cbn [Sentence.cells].
  rewrite (proj1 (neighbour_fold _ _ _ _)). cbn [fst].
  intros c Hc Hknown.
  apply elem_of_union in Hc as [Hc|Hc]; [set_solver|].
  apply elem_of_list_to_set, list_elem_of_filter in Hc as [(_ & Hs & _ & Hm) _].
  set_solver.
Qed.

Lemma clean_add_knowledge (st : MinesweeperAI.t) (cell : Cell) (count : Z) :
  clean st → clean (MinesweeperAI.add_knowledge st cell count).
Proof.
  intros Hst. unfold MinesweeperAI.add_knowledge.
  apply clean_infer.
  assert (clean (MinesweeperAI.record_move st cell)) as H1.
  { unfold clean in *. simpl. apply Forall_fmap.
    eapply Forall_impl; [exact Hst|]. intros s Hs. simpl. set_solver. }
  pose proof (clean_append_if_new _ _ H1
                (new_sentence_clean (MinesweeperAI.record_move st cell) cell count)) as H2.
  apply (clean_scan (length (MinesweeperAI.knowledge
            (MinesweeperAI.append_if_new
               (MinesweeperAI.new_sentence (MinesweeperAI.record_move st cell) cell count)
               (MinesweeperAI.record_move st cell))))) in H2 as H3.
  unfold clean, MinesweeperAI.prune. simpl.
  apply Forall_forall. intros s [_ Hs]%list_elem_of_filter.
  revert s Hs. apply Forall_forall. exact H3.
Qed.

(** X11. Whatever the calls of [add_knowledge] made on a new agent, no
    sentence of the knowledge base mentions a cell that is in [safes] or
    in [mines]. *)
Theorem knowledge_mentions_no_known_cell (h w : Z) (obs : list (Cell * Z)) :
  clean (observe_all (MinesweeperAI.__init__ h w) obs).
Proof.
  unfold observe_all. apply (foldl_invariant clean).
  - intros st o _. apply clean_add_knowledge.
  - constructor.
Qed.

(** ** Runs on true observations *)

(** X12. When every observation is true of the board, every cell the
    agent holds in [mines] is mined, no cell it holds in [safes] is, and
    every sentence of its knowledge base has as count the number of mines
    among its cells. *)
Theorem agent_knows_only_truths (g : Minesweeper.t) (st : MinesweeperAI.t) :
  reachable g st →
  (∀ c, c ∈ MinesweeperAI.mines st → Minesweeper.is_mine g c = Some true)
  ∧ (∀ c, c ∈ MinesweeperAI.safes st → Minesweeper.is_mine g c ≠ Some true)
  ∧ Forall (λ s, Sentence.count s = mine_count g (Sentence.cells s))
           (MinesweeperAI.knowledge st).
Proof.
  intros [_ _ Hm Hs _ Hkb]%reachable_sound. split; [exact Hm|]. split; [exact Hs | exact Hkb].
Qed.

Lemma agent_knows_only_truths_witness :
  reachable game_c (play game_c obs_c)
  ∧ (∀ c, c ∈ MinesweeperAI.mines (play game_c obs_c) → Minesweeper.is_mine game_c c = Some true)
  ∧ (∀ c, c ∈ MinesweeperAI.safes (play game_c obs_c) → Minesweeper.is_mine game_c c ≠ Some true)
  ∧ Forall (λ s, Sentence.count s = mine_count game_c (Sentence.cells s))
           (MinesweeperAI.knowledge (play game_c obs_c)).
Proof.
  assert (reachable game_c (play game_c obs_c)) as Hreach
    by (apply reachable_play; by_evaluation).
  split; [exact Hreach | exact (agent_knows_only_truths game_c _ Hreach)].
Defined.

(** X13. When every observation is true of the board, [make_safe_move]
    never returns a mined cell. *)
Theorem make_safe_move_avoids_mines (g : Minesweeper.t) (st : MinesweeperAI.t)
    (r : nat) (c : Cell) :
  reachable g st →
  MinesweeperAI.make_safe_move st r = Some c →
  Minesweeper.is_mine g c ≠ Some true.
Proof.
  intros [_ _ _ Hs _ _]%reachable_sound Hmove.
  apply Hs. unfold MinesweeperAI.make_safe_move in Hmove.
  apply (proj2 (choice_of_set _ r)) in Hmove. set_solver.
Qed.

Lemma make_safe_move_avoids_mines_witness :
  ∃ c, MinesweeperAI.make_safe_move (play game_c obs_c) 0 = Some c
       ∧ Minesweeper.is_mine game_c c ≠ Some true.
Proof.
  assert (reachable game_c (play game_c obs_c)) as Hreach
    by (apply reachable_play; by_evaluation).
  destruct (MinesweeperAI.make_safe_move (play game_c obs_c) 0) as [c|] eqn:Hmove.
  - exists c. split; [reflexivity|].
    exact (make_safe_move_avoids_mines game_c _ 0 c Hreach Hmove).
  - exfalso. revert Hmove. by_evaluation.
Defined.

Lemma mine_count_bounds (g : Minesweeper.t) (X : gset Cell) :
  0 ≤ mine_count g X ≤ Z.of_nat (size X).
Proof.
  unfold mine_count. split; [lia|].
  apply inj_le, subseteq_size. intros c [_ Hc]%elem_of_filter. exact Hc.
Qed.

(** X14. When every observation is true of the board, the count of every
    sentence of the knowledge base lies between 0 and its number of
    cells. *)
Theorem counts_within_bounds (g : Minesweeper.t) (st : MinesweeperAI.t) :
  reachable g st →
  Forall (λ s, 0 ≤ Sentence.count s ≤ Z.of_nat (size (Sentence.cells s)))
         (MinesweeperAI.knowledge st).
Proof.
  intros [_ _ _ _ _ Hkb]%reachable_sound.
  eapply Forall_impl; [exact Hkb|]. intros s Hs. simpl.
  unfold sentence_true in Hs. rewrite Hs. apply mine_count_bounds.
Qed.

Lemma counts_within_bounds_witness :
  reachable game_b (play game_b obs_b)
  ∧ Forall (λ s, 0 ≤ Sentence.count s ≤ Z.of_nat (size (Sentence.cells s)))
           (MinesweeperAI.knowledge (play game_b obs_b)).
Proof.
  assert (reachable game_b (play game_b obs_b)) as Hreach
    by (apply reachable_play; by_evaluation).
  split; [exact Hreach | exact (counts_within_bounds game_b _ Hreach)].
Defined.



(** ** The board's answers *)

Lemma block_length (cell : Cell) : length (block cell) = 9%nat.
Proof. unfold block. rewrite length_fmap. reflexivity. Qed.

Lemma block_centre (cell : Cell) : cell ∈ block cell.
Proof. apply block_elem. lia. Qed.

(** X16. When [nearby_mines] returns, its result is the number of cells of
    the 3x3 block around [cell], other than [cell], that are on the board
    and mined; it lies between 0 and 8. *)
Theorem nearby_mines_value (g : Minesweeper.t) (cell : Cell) (n : Z) :
  Minesweeper.nearby_mines g cell = Some n →
  n = Z.of_nat (length (filter (counted g cell) (block cell))) ∧ 0 ≤ n ≤ 8.
Proof.
  intros Hn. apply nearby_mines_counts in Hn. split; [exact Hn|].
  assert (length (filter (counted g cell) (block cell)) < length (block cell))%nat as Hlt.
  { apply (length_filter_lt _ _ cell); [apply block_centre|].
    intros (Hne & _). by apply Hne. }
  rewrite block_length in Hlt. lia.
Qed.

Lemma nearby_mines_value_witness :
  Minesweeper.nearby_mines game_a (0, 1) = Some 3
  ∧ 3 = Z.of_nat (length (filter (counted game_a (0, 1)) (block (0, 1)))) ∧ 0 ≤ 3 ≤ 8.
Proof.
  assert (Minesweeper.nearby_mines game_a (0, 1) = Some 3) as H by by_evaluation.
  split; [exact H | exact (nearby_mines_value game_a (0, 1) 3 H)].
Defined.

Lemma py_index_in_range {A} (l : list A) (i : Z) :
  0 ≤ i < Z.of_nat (length l) → is_Some (py_index l i).
Proof.
  intros Hi. unfold py_index. rewrite bool_decide_eq_true_2 by lia.
  apply lookup_lt_is_Some. lia.
Qed.

Lemma py_index_too_large {A} (l : list A) (i : Z) :
  Z.of_nat (length l) ≤ i → py_index l i = None.
Proof.
  intros Hi. unfold py_index. rewrite bool_decide_eq_true_2 by lia.
  apply lookup_ge_None. lia.
Qed.

Lemma py_index_too_small {A} (l : list A) (i : Z) :
  i < - Z.of_nat (length l) → py_index l i = None.
Proof.
  intros Hi. unfold py_index. by rewrite !bool_decide_eq_false_2 by lia.
Qed.

Lemma py_index_wraps {A} (l : list A) (i : Z) :
  0 ≤ i < Z.of_nat (length l) → py_index l (i - Z.of_nat (length l)) = py_index l i.
Proof.
  intros Hi. unfold py_index.
  rewrite (bool_decide_eq_false_2 (0 ≤ i - _)) by lia.
  rewrite bool_decide_eq_true_2 by lia. rewrite bool_decide_eq_true_2 by lia.
  f_equal. lia.
Qed.

Lemma is_mine_in_bounds (g : Minesweeper.t) (c : Cell) :
  well_formed g →
  in_bounds (Minesweeper.height g) (Minesweeper.width g) c →
  is_Some (Minesweeper.is_mine g c).
Proof.
  intros [Hh Hw] [Hi Hj]. destruct c as [i j]. simpl in *.
  destruct (py_index_in_range (Minesweeper.board g) i) as [row Hrow]; [lia|].
  rewrite Hrow. simpl. apply py_index_in_range.
  assert (row ∈ Minesweeper.board g) as Hin.
  { unfold py_index in Hrow. rewrite bool_decide_eq_true_2 in Hrow by lia.
    by eapply list_elem_of_lookup_2. }
  rewrite (proj1 (Forall_forall _ _) Hw row Hin). lia.
Qed.

(** X17. On a board with [height] rows of [width] cells, [is_mine] answers
    for every cell of the board, raises [IndexError] for a row index of
    [height] or more and for one below [-height], and for a cell of the
    board shifted up by [height] rows (a negative row index) answers as for
    the cell itself. *)
Theorem is_mine_indexing (g : Minesweeper.t) (i j : Z) :
  well_formed g →
  (in_bounds (Minesweeper.height g) (Minesweeper.width g) (i, j) →
     is_Some (Minesweeper.is_mine g (i, j))
     ∧ Minesweeper.is_mine g (i - Minesweeper.height g, j) = Minesweeper.is_mine g (i, j))
  ∧ (Minesweeper.height g ≤ i ∨ i < - Minesweeper.height g →
     Minesweeper.is_mine g (i, j) = None).
Proof.
  intros Hwf. pose proof Hwf as [Hh Hw]. split.
  - intros Hb. split; [by apply is_mine_in_bounds|].
    destruct Hb as [Hi _]. simpl in Hi. simpl.
    rewrite <- Hh. rewrite py_index_wraps by lia. reflexivity.
  - intros Hi. simpl.
    assert (py_index (Minesweeper.board g) i = None) as ->; [|reflexivity].
    destruct Hi; [apply py_index_too_large | apply py_index_too_small]; lia.
Qed.

Lemma is_mine_indexing_witness :
  well_formed game_a
  ∧ (in_bounds (Minesweeper.height game_a) (Minesweeper.width game_a) (1, 1) →
       is_Some (Minesweeper.is_mine game_a (1, 1))
       ∧ Minesweeper.is_mine game_a (1 - Minesweeper.height game_a, 1)
         = Minesweeper.is_mine game_a (1, 1))
  ∧ (Minesweeper.height game_a ≤ 1 ∨ 1 < - Minesweeper.height game_a →
     Minesweeper.is_mine game_a (1, 1) = None).
Proof.
  assert (well_formed game_a) as H by by_evaluation.
  split; [exact H | exact (is_mine_indexing game_a 1 1 H)].
Defined.

Lemma nearby_step_total (g : Minesweeper.t) (cell c : Cell) (a : Z) :
  well_formed g → is_Some (Minesweeper.nearby_step g cell a c).
Proof.
  intros Hwf. unfold Minesweeper.nearby_step.
  case_bool_decide as Hcell; [by eexists|].
  destruct (bool_decide (0 ≤ c.1 < Minesweeper.height g)
            && bool_decide (0 ≤ c.2 < Minesweeper.width g)) eqn:Hb; [|by eexists].
  apply andb_true_iff in Hb as [Hi%bool_decide_eq_true Hj%bool_decide_eq_true].
  destruct (is_mine_in_bounds g c Hwf) as [b ->]; [by split|]. simpl. by eexists.
Qed.

Lemma nearby_fold_total (g : Minesweeper.t) (cell : Cell) (l : list Cell) (a : Z) :
  well_formed g →
  is_Some (foldl (λ acc c, count ← acc; Minesweeper.nearby_step g cell count c) (Some a) l).
Proof.
  intros Hwf. revert a. induction l as [|c l IH]; intros a; simpl; [by eexists|].
  destruct (nearby_step_total g cell c a Hwf) as [a' ->]. apply IH.
Qed.

(** X18. On a board with [height] rows of [width] cells, [nearby_mines]
    returns a count for every cell, on the board or not: it never reads
    outside the board. *)
Theorem nearby_mines_total (g : Minesweeper.t) (cell : Cell) :
  well_formed g → ∃ n, Minesweeper.nearby_mines g cell = Some n ∧ 0 ≤ n ≤ 8.
Proof.
  intros Hwf. rewrite nearby_mines_block.
  destruct (nearby_fold_total g cell (block cell) 0 Hwf) as [n Hn].
  exists n. split; [exact Hn|].
  rewrite <- nearby_mines_block in Hn. apply nearby_mines_counts in Hn.
  assert (length (filter (counted g cell) (block cell)) < length (block cell))%nat as Hlt.
  { apply (length_filter_lt _ _ cell); [apply block_centre|].
    intros (Hne & _). by apply Hne. }
  rewrite block_length in Hlt. lia.
Qed.

Lemma nearby_mines_total_witness :
  well_formed game_a ∧ ∃ n, Minesweeper.nearby_mines game_a (-1, 5) = Some n ∧ 0 ≤ n ≤ 8.
Proof.
  assert (well_formed game_a) as H by by_evaluation.
  split; [exact H | exact (nearby_mines_total game_a (-1, 5) H)].
Defined.

(** ** Building the board: [Minesweeper.__init__] *)

Lemma py_index_nonneg {A} (l : list A) (i : Z) :
  0 ≤ i → py_index l i = l !! Z.to_nat i.
Proof. intros Hi. unfold py_index. by rewrite bool_decide_eq_true_2. Qed.

Lemma read_cell (board : list (list bool)) (i j : Z) :
  0 ≤ i → 0 ≤ j →
  (row ← py_index board i; py_index row j)
  = (board !! Z.to_nat i) ≫= (λ row, row !! Z.to_nat j).
Proof.
  intros H1 H2. rewrite py_index_nonneg by assumption.
  destruct (board !! Z.to_nat i) as [row|]; simpl; [|reflexivity].
  by apply py_index_nonneg.
Qed.

Lemma randrange_Some (n : Z) (r : nat) (i : Z) :
  randrange n r = Some i → 0 ≤ i < n.
Proof.
  unfold randrange. case_bool_decide as Hn; [|discriminate].
  intros [= <-]. by apply Z.mod_pos_bound.
Qed.

Lemma randrange_positive (n : Z) (r : nat) :
  0 < n → randrange n r = Some (Z.of_nat r `mod` n).
Proof. intros Hn. unfold randrange. by rewrite bool_decide_eq_true_2. Qed.

Lemma agrees_empty (h w : Z) :
  agrees h w (replicate (Z.to_nat h) (replicate (Z.to_nat w) false)) ∅.
Proof.
  split; [apply length_replicate|]. split.
  - apply Forall_replicate, length_replicate.
  - intros c. split; [set_solver|]. intros [[Hi Hj] Hread]. exfalso.
    rewrite read_cell in Hread by lia.
    rewrite lookup_replicate_2 in Hread by lia. simpl in Hread.
    rewrite lookup_replicate_2 in Hread by lia. discriminate.
Qed.

Lemma agrees_row (h w : Z) (board : list (list bool)) (mines : gset Cell) (i : Z) :
  agrees h w board mines → 0 ≤ i < h →
  ∃ row, board !! Z.to_nat i = Some row ∧ length row = Z.to_nat w.
Proof.
  intros (Hlen & Hrows & _) Hi.
  destruct (lookup_lt_is_Some_2 board (Z.to_nat i)) as [row Hrow]; [lia|].
  exists row. split; [exact Hrow|].
  apply (proj1 (Forall_forall _ _) Hrows). by eapply list_elem_of_lookup_2.
Qed.

Lemma agrees_read (h w : Z) (board : list (list bool)) (mines : gset Cell) (i j : Z) :
  agrees h w board mines → 0 ≤ i < h → 0 ≤ j < w →
  (row ← py_index board i; py_index row j) = Some (bool_decide ((i, j) ∈ mines)).
Proof.
  intros Hag Hi Hj. pose proof Hag as (_ & _ & Hmines).
  destruct (agrees_row h w board mines i Hag Hi) as (row & Hrow & Hlen).
  destruct (lookup_lt_is_Some_2 row (Z.to_nat j)) as [b Hb]; [lia|].
  assert ((row ← py_index board i; py_index row j) = Some b) as Hread.
  { rewrite read_cell by lia. rewrite Hrow. exact Hb. }
  rewrite Hread. f_equal. specialize (Hmines (i, j)). simpl in Hmines.
  rewrite Hread in Hmines. destruct b.
  - symmetry. apply bool_decide_eq_true_2, Hmines.
    split; [split; simpl; lia | reflexivity].
  - symmetry. apply bool_decide_eq_false_2. intros [_ ?]%Hmines. discriminate.
Qed.

Lemma set_mine_in_range (h w : Z) (board : list (list bool)) (mines : gset Cell) (i j : Z) :
  agrees h w board mines → 0 ≤ i < h → 0 ≤ j < w →
  ∃ board', Minesweeper.set_mine board i j = Some board' ∧ agrees h w board' ({[(i, j)]} ∪ mines).
Proof.
  intros Hag Hi Hj. pose proof Hag as (Hlen & Hrows & Hmines).
  destruct (agrees_row h w board mines i Hag Hi) as (row & Hrow & Hrowlen).
  exists (<[Z.to_nat i := <[Z.to_nat j := true]> row]> board). split.
  - unfold Minesweeper.set_mine. rewrite py_index_nonneg by lia. rewrite Hrow. simpl.
    unfold py_setitem. rewrite !bool_decide_eq_true_2 by lia. reflexivity.
  - split; [by rewrite length_insert|]. split.
    { apply Forall_insert; [assumption | by rewrite length_insert]. }
    intros c. destruct (decide (c = (i, j))) as [->|Hne].
    + split; [|set_solver]. intros _. split; [split; simpl; lia|].
      rewrite read_cell by (simpl; lia). simpl.
      rewrite list_lookup_insert_eq by lia. simpl.
      apply list_lookup_insert_eq. lia.
    + rewrite elem_of_union, elem_of_singleton, Hmines.
      split; [intros [?|[Hb Hread]]; [done|] | intros [Hb Hread]; right];
        (split; [exact Hb|]); destruct Hb as [Hci Hcj];
        rewrite read_cell in * by lia.
      * destruct (decide (Z.to_nat c.1 = Z.to_nat i)) as [Heq|Hneq].
        -- rewrite Heq, list_lookup_insert_eq by lia. simpl.
           rewrite Heq, Hrow in Hread. simpl in Hread.
           rewrite list_lookup_insert_ne; [exact Hread|].
           intros Hj'. apply Hne. destruct c; simpl in *. f_equal; lia.
        -- by rewrite list_lookup_insert_ne.
      * destruct (decide (Z.to_nat c.1 = Z.to_nat i)) as [Heq|Hneq].
        -- rewrite Heq, list_lookup_insert_eq in Hread by lia. simpl in Hread.
           rewrite Heq, Hrow. simpl.
           rewrite list_lookup_insert_ne in Hread; [exact Hread|].
           intros Hj'. apply Hne. destruct c; simpl in *. f_equal; lia.
        -- by rewrite list_lookup_insert_ne in Hread.
Qed.

Lemma place_mines_done (h w m : Z) (draws : list nat) (board : list (list bool))
    (mines : gset Cell) :
  Z.of_nat (size mines) = m →
  Minesweeper.place_mines h w m draws board mines
  = Minesweeper.Built (Minesweeper.mk h w mines board ∅).
Proof.
  intros Hsize. destruct draws; simpl; by rewrite bool_decide_eq_false_2 by tauto.
Qed.

Lemma place_mines_starved (h w m : Z) (draws : list nat) (board : list (list bool))
    (mines : gset Cell) :
  Z.of_nat (size mines) ≠ m → (length draws < 2)%nat →
  ∀ g, Minesweeper.place_mines h w m draws board mines ≠ Minesweeper.Built g.
Proof.
  intros Hsize Hlen g. destruct draws as [|r1 [|r2 draws2]]; simpl in *; try lia;
    rewrite bool_decide_eq_true_2 by assumption.
  - unfold Minesweeper.starved. case_bool_decide; discriminate.
  - destruct (randrange h r1); [|discriminate].
    unfold Minesweeper.starved. case_bool_decide; discriminate.
Qed.

Lemma place_mines_step (h w m : Z) (r1 r2 : nat) (draws : list nat)
    (board : list (list bool)) (mines : gset Cell) (i j : Z) :
  Z.of_nat (size mines) ≠ m →
  agrees h w board mines →
  randrange h r1 = Some i → randrange w r2 = Some j →
  ∃ board' mines',
    Minesweeper.place_mines h w m (r1 :: r2 :: draws) board mines
    = Minesweeper.place_mines h w m draws board' mines'
    ∧ agrees h w board' mines'
    ∧ mines' = {[(i, j)]} ∪ mines.
Proof.
  intros Hsize Hag Hi Hj. simpl. rewrite bool_decide_eq_true_2 by assumption.
  rewrite Hi, Hj. apply randrange_Some in Hi, Hj.
  rewrite (agrees_read h w board mines i j Hag Hi Hj).
  destruct (decide ((i, j) ∈ mines)) as [Hin|Hin].
  - rewrite (bool_decide_eq_true_2 _ Hin). exists board, mines.
    split; [reflexivity|]. split; [assumption | set_solver].
  - rewrite (bool_decide_eq_false_2 _ Hin).
    destruct (set_mine_in_range h w board mines i j Hag Hi Hj) as (board' & -> & Hag').
    exists board', ({[(i, j)]} ∪ mines).
    split; [reflexivity|]. split; [assumption | reflexivity].
Qed.

Lemma place_mines_built (h w m : Z) (n : nat) :
  ∀ (draws : list nat) (board : list (list bool)) (mines : gset Cell) (g : Minesweeper.t),
    (length draws ≤ n)%nat →
    agrees h w board mines →
    Minesweeper.place_mines h w m draws board mines = Minesweeper.Built g →
    Minesweeper.height g = h ∧ Minesweeper.width g = w
    ∧ Minesweeper.mines_found g = ∅
    ∧ Z.of_nat (size (Minesweeper.mines g)) = m
    ∧ agrees h w (Minesweeper.board g) (Minesweeper.mines g).
Proof.
  induction n as [|n IH]; intros draws board mines g Hlen Hag;
    (destruct (decide (Z.of_nat (size mines) = m)) as [Hsize|Hsize];
     [rewrite place_mines_done by assumption; intros [= <-]; simpl;
      split; [reflexivity|]; split; [reflexivity|]; split; [reflexivity|];
      split; assumption|]).
  - intros Hg. exfalso. revert Hg. apply place_mines_starved; [assumption | lia].
  - destruct draws as [|r1 [|r2 draws2]];
      try (intros Hg; exfalso; revert Hg;
           apply place_mines_starved; [assumption | simpl; lia]).
    destruct (randrange h r1) as [i|] eqn:Hi;
      [|simpl; rewrite bool_decide_eq_true_2, Hi by assumption; discriminate].
    destruct (randrange w r2) as [j|] eqn:Hj;
      [|simpl; rewrite bool_decide_eq_true_2, Hi, Hj by assumption; discriminate].
    destruct (place_mines_step h w m r1 r2 draws2 board mines i j Hsize Hag Hi Hj)
      as (board' & mines' & -> & Hag' & _).
    apply IH; [simpl in Hlen; lia | assumption].
Qed.

(** X19. When [Minesweeper(height, width, mines)] returns, the game has the
    given height and width, a board of [height] rows of [width] cells,
    exactly [mines] cells in [self.mines], which are the cells of the board
    where [is_mine] answers [True], and no mine found yet. *)
Theorem init_builds_consistent_board (h w m : Z) (draws : list nat) (g : Minesweeper.t) :
  Minesweeper.__init__ h w m draws = Minesweeper.Built g →
  Minesweeper.height g = h ∧ Minesweeper.width g = w
  ∧ Minesweeper.mines_found g = ∅
  ∧ Z.of_nat (size (Minesweeper.mines g)) = m
  ∧ length (Minesweeper.board g) = Z.to_nat h
  ∧ Forall (λ row, length row = Z.to_nat w) (Minesweeper.board g)
  ∧ ∀ c, c ∈ Minesweeper.mines g ↔
         in_bounds h w c ∧ Minesweeper.is_mine g c = Some true.
Proof.
  intros Hg.
  destruct (place_mines_built h w m (length draws) draws _ _ g (le_n _) (agrees_empty h w) Hg)
    as (Hh & Hw & Hf & Hsize & Hlen & Hrows & Hmines).
  repeat (split; [assumption|]). intros [i j]. apply Hmines.
Qed.

Lemma init_builds_consistent_board_witness :
  Minesweeper.__init__ 2 2 1 [0; 1]%nat
  = Minesweeper.Built (Minesweeper.mk 2 2 {[ (0, 1) ]} [[false; true]; [false; false]] ∅)
  ∧ Z.of_nat (size ({[ (0, 1) ]} : gset Cell)) = 1
  ∧ ∀ c, c ∈ ({[ (0, 1) ]} : gset Cell) ↔
         in_bounds 2 2 c
         ∧ Minesweeper.is_mine
             (Minesweeper.mk 2 2 {[ (0, 1) ]} [[false; true]; [false; false]] ∅) c = Some true.
Proof.
  assert (Minesweeper.__init__ 2 2 1 [0; 1]%nat
          = Minesweeper.Built
              (Minesweeper.mk 2 2 {[ (0, 1) ]} [[false; true]; [false; false]] ∅)) as H
    by (vm_compute; reflexivity).
  split; [exact H|].
  destruct (init_builds_consistent_board 2 2 1 [0; 1]%nat _ H)
    as (_ & _ & _ & Hsize & _ & _ & Hmines).
  split; [exact Hsize | exact Hmines].
Defined.

Lemma place_mines_progress (h w m : Z) (n : nat) :
  0 < h → 0 < w →
  ∀ (draws : list nat) (board : list (list bool)) (mines : gset Cell),
    (length draws ≤ n)%nat →
    agrees h w board mines →
    Z.of_nat (size mines) ≤ m →
    (∃ g, Minesweeper.place_mines h w m draws board mines = Minesweeper.Built g)
    ↔ m ≤ Z.of_nat (size (mines ∪ list_to_set (drawn h w draws))).
Proof.
  intros Hh Hw.
  assert (∀ (draws : list nat) (board : list (list bool)) (mines : gset Cell),
            (length draws < 2)%nat → Z.of_nat (size mines) ≠ m → Z.of_nat (size mines) ≤ m →
            (∃ g, Minesweeper.place_mines h w m draws board mines = Minesweeper.Built g)
            ↔ m ≤ Z.of_nat (size (mines ∪ list_to_set (drawn h w draws)))) as Hshort.
  { intros draws board mines Hlen Hne Hle. split.
    - intros [g Hg]. exfalso. revert Hg. by apply place_mines_starved.
    - assert (drawn h w draws = []) as -> by (by destruct draws as [|r1 [|r2 draws2]]; simpl in *; try lia).
      simpl. assert (mines ∪ ∅ = mines) as -> by set_solver. lia. }
  induction n as [|n IH]; intros draws board mines Hlen Hag Hle;
    (destruct (decide (Z.of_nat (size mines) = m)) as [Hsize|Hsize];
     [rewrite place_mines_done by assumption; split;
      [intros _; rewrite <- Hsize; apply inj_le, subseteq_size; set_solver
      |intros _; by eexists]|]).
  - apply Hshort; [lia | assumption | assumption].
  - destruct draws as [|r1 [|r2 draws2]]; try (apply Hshort; [simpl; lia | assumption | assumption]).
    destruct (place_mines_step h w m r1 r2 draws2 board mines _ _ Hsize Hag
                (randrange_positive h r1 Hh) (randrange_positive w r2 Hw))
      as (board' & mines' & -> & Hag' & ->).
    simpl drawn. rewrite list_to_set_cons.
    set (c := (Z.of_nat r1 `mod` h, Z.of_nat r2 `mod` w)) in *.
    assert (mines ∪ ({[c]} ∪ list_to_set (drawn h w draws2))
            = ({[c]} ∪ mines) ∪ list_to_set (drawn h w draws2)) as -> by set_solver.
    apply IH; [simpl in Hlen; lia | assumption |].
    rewrite size_union_alt, size_singleton.
    assert (size (mines ∖ {[c]}) ≤ size mines)%nat as Hsub
      by (apply subseteq_size; set_solver).
    lia.
Qed.

Lemma place_mines_no_raise (h w m : Z) (n : nat) :
  0 < h → 0 < w →
  ∀ (draws : list nat) (board : list (list bool)) (mines : gset Cell),
    (length draws ≤ n)%nat →
    agrees h w board mines →
    Minesweeper.place_mines h w m draws board mines ≠ Minesweeper.Raised.
Proof.
  intros Hh Hw.
  induction n as [|n IH]; intros draws board mines Hlen Hag;
    (destruct (decide (Z.of_nat (size mines) = m)) as [Hsize|Hsize];
     [by rewrite place_mines_done by assumption|]).
  - destruct draws; simpl in *; [|lia].
    rewrite bool_decide_eq_true_2 by assumption.
    unfold Minesweeper.starved. by rewrite bool_decide_eq_true_2.
  - destruct draws as [|r1 [|r2 draws2]].
    + simpl. rewrite bool_decide_eq_true_2 by assumption.
      unfold Minesweeper.starved. by rewrite bool_decide_eq_true_2.
    + simpl. rewrite bool_decide_eq_true_2 by assumption.
      rewrite randrange_positive by assumption.
      unfold Minesweeper.starved. by rewrite bool_decide_eq_true_2.
    + destruct (place_mines_step h w m r1 r2 draws2 board mines _ _ Hsize Hag
                  (randrange_positive h r1 Hh) (randrange_positive w r2 Hw))
        as (board' & mines' & -> & Hag' & _).
      apply IH; [simpl in Hlen; lia | assumption].
Qed.

(** X20. On a board of positive height and width [Minesweeper.__init__]
    raises nothing, and it returns exactly when [mines] is not negative
    and the draws name at least [mines] different cells. *)
Theorem init_returns_iff_enough_cells (h w m : Z) (draws : list nat) :
  0 < h → 0 < w →
  Minesweeper.__init__ h w m draws ≠ Minesweeper.Raised
  ∧ ((∃ g, Minesweeper.__init__ h w m draws = Minesweeper.Built g)
     ↔ 0 ≤ m ≤ Z.of_nat (size (list_to_set (drawn h w draws) : gset Cell))).
Proof.
  intros Hh Hw. unfold Minesweeper.__init__.
  split; [by apply (place_mines_no_raise h w m (length draws)), agrees_empty|].
  destruct (decide (0 ≤ m)) as [Hm|Hm].
  - rewrite (place_mines_progress h w m (length draws) Hh Hw draws _ ∅ (le_n _)
               (agrees_empty h w)) by (rewrite size_empty; lia).
    assert (∅ ∪ list_to_set (drawn h w draws) = (list_to_set (drawn h w draws) : gset Cell))
      as -> by set_solver.
    lia.
  - split; [|lia]. intros [g Hg].
    destruct (place_mines_built h w m (length draws) draws _ _ g (le_n _)
                (agrees_empty h w) Hg) as (_ & _ & _ & Hsize & _).
    lia.
Qed.

Lemma init_returns_iff_enough_cells_witness :
  Minesweeper.__init__ 2 3 2 [0; 1; 4; 4; 1; 2]%nat ≠ Minesweeper.Raised
  ∧ ((∃ g, Minesweeper.__init__ 2 3 2 [0; 1; 4; 4; 1; 2]%nat = Minesweeper.Built g)
     ↔ 0 ≤ 2 ≤ Z.of_nat (size (list_to_set (drawn 2 3 [0; 1; 4; 4; 1; 2]%nat) : gset Cell))).
Proof.
  apply (init_returns_iff_enough_cells 2 3 2 [0; 1; 4; 4; 1; 2]%nat); lia.
Defined.

Lemma place_mines_raises (h w m : Z) (draws : list nat) (board : list (list bool))
    (mines : gset Cell) :
  Z.of_nat (size mines) ≠ m →
  h ≤ 0 ∨ (w ≤ 0 ∧ draws ≠ []) →
  Minesweeper.place_mines h w m draws board mines = Minesweeper.Raised.
Proof.
  intros Hsize Hdim. unfold Minesweeper.starved.
  destruct (decide (h ≤ 0)) as [Hh|Hh].
  - destruct draws as [|r1 draws1]; simpl; rewrite bool_decide_eq_true_2 by assumption.
    + unfold Minesweeper.starved. by rewrite bool_decide_eq_false_2 by lia.
    + unfold randrange. by rewrite bool_decide_eq_false_2 by lia.
  - destruct Hdim as [?|[Hw Hdraws]]; [lia|].
    destruct draws as [|r1 [|r2 draws2]]; [done| |]; simpl;
      rewrite bool_decide_eq_true_2 by assumption;
      rewrite randrange_positive by lia.
    + unfold Minesweeper.starved. by rewrite bool_decide_eq_false_2 by lia.
    + unfold randrange. by rewrite bool_decide_eq_false_2 by lia.
Qed.

(** X21. With [mines = 0] the constructor returns the empty board without
    drawing; with any other [mines] it raises [ValueError] when the height
    is not positive, and when the width is not positive once a first draw
    is made. *)
Theorem init_edge_cases (h w m : Z) (draws : list nat) :
  (m = 0 →
   Minesweeper.__init__ h w m draws
   = Minesweeper.Built
       (Minesweeper.mk h w ∅ (replicate (Z.to_nat h) (replicate (Z.to_nat w) false)) ∅))
  ∧ (m ≠ 0 → h ≤ 0 → Minesweeper.__init__ h w m draws = Minesweeper.Raised)
  ∧ (m ≠ 0 → 0 < h → w ≤ 0 → draws ≠ [] →
     Minesweeper.__init__ h w m draws = Minesweeper.Raised).
Proof.
  unfold Minesweeper.__init__. split; [|split].
  - intros ->. apply place_mines_done. by rewrite size_empty.
  - intros Hm Hh. apply place_mines_raises; [rewrite size_empty; lia | by left].
  - intros Hm Hh Hw Hdraws.
    apply place_mines_raises; [rewrite size_empty; lia | by right].
Qed.

(** ** An observation of 0 makes every neighbour safe *)

Lemma pending_zero_mark_safe (g : Minesweeper.t) (p : nat) (U : gset Cell)
    (st : MinesweeperAI.t) (c : Cell) :
  pending_zero g p U st → ¬ mine_at g c → pending_zero g p U (MinesweeperAI.mark_safe st c).
Proof.
  intros (Hst & s & Hp & Hz & HU) Hc. split; [by apply sound_mark_safe|].
  exists (Sentence.mark_safe c s). simpl. rewrite list_lookup_fmap, Hp.
  split; [reflexivity|]. split; [exact Hz|].
  intros c' Hc'. destruct (HU c' Hc'); destruct (decide (c' = c)); set_solver.
Qed.

Lemma pending_zero_mark_mine (g : Minesweeper.t) (p : nat) (U : gset Cell)
    (st : MinesweeperAI.t) (c : Cell) :
  pending_zero g p U st → mine_at g c → pending_zero g p U (MinesweeperAI.mark_mine st c).
Proof.
  intros (Hst & s & Hp & Hz & HU) Hc. split; [by apply sound_mark_mine|].
  exists s. simpl. rewrite list_lookup_fmap, Hp. simpl.
  assert (c ∉ Sentence.cells s) as Hnot.
  { intros Hin. pose proof (sound_lookup g st p s Hst Hp) as Hs.
    unfold sentence_true in Hs.
    apply (mine_count_zero g (Sentence.cells s) c); [lia | assumption | assumption]. }
  unfold Sentence.mark_mine. rewrite bool_decide_eq_false_2 by assumption.
  by repeat split.
Qed.

Lemma pending_zero_visit (g : Minesweeper.t) (p : nat) (U : gset Cell)
    (k : nat) (st : MinesweeperAI.t) :
  pending_zero g p U st → pending_zero g p U (MinesweeperAI.visit k st).
Proof.
  intros Hst. unfold MinesweeperAI.visit.
  destruct (MinesweeperAI.knowledge st !! k) as [s|] eqn:Hk; [|assumption].
  set (st1 := foldl MinesweeperAI.mark_safe st (elements (Sentence.known_safes s))).
  assert (pending_zero g p U st1) as Hst1.
  { apply foldl_invariant; [|assumption].
    intros st' c Hc Hst'. apply pending_zero_mark_safe; [assumption|].
    apply (known_safes_true g s);
      [exact (sound_lookup g st k s (proj1 Hst) Hk) | by apply elem_of_elements]. }
  destruct (MinesweeperAI.knowledge st1 !! k) as [s'|] eqn:Hk'; [|assumption].
  apply foldl_invariant; [|assumption].
  intros st' c Hc Hst'. apply pending_zero_mark_mine; [assumption|].
  apply (known_mines_true g s');
    [exact (sound_lookup g st1 k s' (proj1 Hst1) Hk') | by apply elem_of_elements].
Qed.

Lemma pending_zero_resolved (g : Minesweeper.t) (p : nat) (U : gset Cell)
    (st : MinesweeperAI.t) :
  pending_zero g p U st → U ⊆ MinesweeperAI.safes (MinesweeperAI.visit p st).
Proof.
  intros (_ & s & Hp & Hz & HU). rewrite (visit_unfold p st s Hp). simpl.
  rewrite (known_safes_zero s Hz). intros c Hc. destruct (HU c Hc); set_solver.
Qed.

Lemma pending_zero_scan (g : Minesweeper.t) (p : nat) (U : gset Cell) (n : nat) :
  ∀ st, (p < n)%nat → pending_zero g p U st →
        U ⊆ MinesweeperAI.safes (MinesweeperAI.scan n st).
Proof.
  induction n as [|n IH]; intros st Hp Hst; [lia|]. simpl.
  destruct (decide (p = n)) as [->|Hne].
  - etransitivity; [by apply (pending_zero_resolved g)|].
    apply (scan_related facts_included n (MinesweeperAI.visit n st) visit_grows).
  - apply IH; [lia | by apply pending_zero_visit].
Qed.

Lemma sentence_in_lookup (s : Sentence.t) (kb : list Sentence.t) :
  sentence_in s kb = true → ∃ p, kb !! p = Some s.
Proof.
  intros (s' & Hin & [Hc Hn])%sentence_in_spec.
  apply list_elem_of_lookup_1 in Hin as [p Hp]. exists p.
  rewrite Hp. f_equal. destruct s, s'. simpl in *. congruence.
Qed.

Lemma append_if_new_lookup (s : Sentence.t) (st : MinesweeperAI.t) :
  ∃ p, MinesweeperAI.knowledge (MinesweeperAI.append_if_new s st) !! p = Some s.
Proof.
  unfold MinesweeperAI.append_if_new.
  destruct (sentence_in s (MinesweeperAI.knowledge st)) eqn:Hin.
  - by apply sentence_in_lookup.
  - exists (length (MinesweeperAI.knowledge st)). simpl.
    rewrite lookup_app_r by lia. by rewrite Nat.sub_diag.
Qed.

Lemma new_sentence_parts (st : MinesweeperAI.t) (cell : Cell) (count : Z) :
  Sentence.cells (MinesweeperAI.new_sentence st cell count)
  = list_to_set (filter (undetermined st cell) (block cell))
  ∧ Sentence.count (MinesweeperAI.new_sentence st cell count)
    = count - Z.of_nat (length (filter (discounted st cell) (block cell))).
Proof.
  rewrite new_sentence_block. cbn [Sentence.cells Sentence.count].
  destruct (neighbour_fold st cell (block cell) (∅, count)) as [-> ->]. cbn [fst snd].
  split; [set_solver | reflexivity].
Qed.

(** X22. When every observation so far is true of the board and the board
    reports 0 for a cell, the call of [add_knowledge] leaves every
    in-bounds neighbour of that cell in [safes]. *)
Theorem zero_makes_neighbours_safe (g : Minesweeper.t) (st : MinesweeperAI.t) (cell : Cell) :
  reachable g st →
  valid_observation g cell 0 →
  ∀ c, neighbour st cell c → c ∈ MinesweeperAI.safes (MinesweeperAI.add_knowledge st cell 0).
Proof.
  intros Hst%reachable_sound [Hsafe Hcount] c Hc.
  pose proof (sound_record_move g st cell Hst Hsafe) as Hst1.
  set (st1 := MinesweeperAI.record_move st cell) in *.
  pose proof (new_sentence_true g st1 cell 0 Hst1 Hcount) as Hs.
  destruct (new_sentence_parts st1 cell 0) as [Hcells Hn].
  set (s := MinesweeperAI.new_sentence st1 cell 0) in *.
  unfold sentence_true in Hs. pose proof (mine_count_bounds g (Sentence.cells s)) as Hb.
  assert (Sentence.count s = 0) as Hzero by lia.
  assert (filter (discounted st1 cell) (block cell) = []) as Hnone
    by (apply length_zero_iff_nil; lia).
  pose proof (sound_append_if_new g s st1 Hst1 Hs) as Hst2.
  destruct (append_if_new_lookup s st1) as [p Hp].
  set (st2 := MinesweeperAI.append_if_new s st1) in *.
  assert (MinesweeperAI.safes st2 = MinesweeperAI.safes st1) as Hsafes2.
  { unfold st2, MinesweeperAI.append_if_new.
    by destruct (sentence_in s (MinesweeperAI.knowledge st1)). }
  assert (pending_zero g p {[c]} st2) as Hpending.
  { split; [assumption|]. exists s. split; [assumption|]. split; [assumption|].
    intros c' ->%elem_of_singleton. destruct Hc as (Hblock & Hin & Hne).
    rewrite Hsafes2, Hcells, elem_of_list_to_set, list_elem_of_filter, block_elem.
    destruct (decide (c ∈ MinesweeperAI.safes st1 ∪ MinesweeperAI.moves_made st1))
      as [Hknown|Hknown].
    - right. apply elem_of_union in Hknown as [?|?]; [assumption|].
      by apply (sound_moves g st1 Hst1).
    - left. split; [|exact Hblock]. split; [exact Hin|]. split; [exact Hknown|].
      split; [exact Hne|]. intros Hmine.
      assert (c ∈ filter (discounted st1 cell) (block cell)) as Hd.
      { apply list_elem_of_filter. split; [|by apply block_elem].
        split; [exact Hin | split; [exact Hknown | split; [exact Hne | exact Hmine]]]. }
      rewrite Hnone in Hd. by apply not_elem_of_nil in Hd. }
  assert (c ∈ MinesweeperAI.safes (MinesweeperAI.mark_mine_or_safe st2)) as Hdone.
  { apply (pending_zero_scan g p {[c]} _ st2); [|assumption | set_solver].
    by apply lookup_lt_Some in Hp. }
  unfold MinesweeperAI.add_knowledge. fold st1 s st2.
  assert (facts_included (MinesweeperAI.mark_mine_or_safe st2)
            (MinesweeperAI.infer
               (length (MinesweeperAI.knowledge
                          (MinesweeperAI.prune (MinesweeperAI.mark_mine_or_safe st2))))
               (MinesweeperAI.prune (MinesweeperAI.mark_mine_or_safe st2))))
    as (_ & Hgrow & _).
  { etransitivity; [|apply (infer_related facts_included), derive_from_grows].
    apply set_knowledge_grows. }
  by apply Hgrow.
Qed.

Lemma zero_makes_neighbours_safe_witness :
  reachable game_b (fresh_agent game_b)
  ∧ valid_observation game_b (2, 0) 0
  ∧ ∀ c, neighbour (fresh_agent game_b) (2, 0) c →
         c ∈ MinesweeperAI.safes (MinesweeperAI.add_knowledge (fresh_agent game_b) (2, 0) 0).
Proof.
  assert (valid_observation game_b (2, 0) 0) as Hobs by by_evaluation.
  split; [apply reachable_fresh|]. split; [exact Hobs|].
  exact (zero_makes_neighbours_safe game_b _ (2, 0) (reachable_fresh game_b) Hobs).
Defined.

(** ** What a propagation pass does to the knowledge base *)

#[local] Instance shrunk_refl : Reflexive shrunk.
Proof. intros s. by split. Qed.

#[local] Instance shrunk_trans : Transitive shrunk.
Proof.
  intros s1 s2 s3 [H12 E12] [H23 E23]. split; [set_solver|].
  intros Heq. assert (Sentence.cells s2 = Sentence.cells s1) as H21 by set_solver.
  rewrite <- (E12 H21). apply E23. rewrite H21. exact Heq.
Qed.

#[local] Instance only_removed_refl : Reflexive only_removed.
Proof. intros st. split; reflexivity. Qed.

#[local] Instance only_removed_trans : Transitive only_removed.
Proof. intros st1 st2 st3 [F12 K12] [F23 K23]. split; etransitivity; eassumption. Qed.

Lemma shrunk_mark_safe (c : Cell) (s : Sentence.t) : shrunk s (Sentence.mark_safe c s).
Proof.
  unfold shrunk, Sentence.mark_safe. simpl. split; [set_solver|].
  intros Heq. destruct s as [X n]. simpl in *. by rewrite Heq.
Qed.

Lemma shrunk_mark_mine (c : Cell) (s : Sentence.t) : shrunk s (Sentence.mark_mine c s).
Proof.
  unfold shrunk, Sentence.mark_mine.
  destruct (decide (c ∈ Sentence.cells s)) as [Hc|Hc].
  - rewrite (bool_decide_eq_true_2 _ Hc). simpl. split; [set_solver|].
    intros Heq. exfalso. set_solver.
  - rewrite (bool_decide_eq_false_2 _ Hc). by split.
Qed.

Lemma only_removed_mark_safe (st : MinesweeperAI.t) (c : Cell) :
  only_removed st (MinesweeperAI.mark_safe st c).
Proof.
  split; [apply mark_safe_grows|]. simpl. apply Forall2_fmap_r, Forall_Forall2_diag.
  apply Forall_forall. intros s _. apply shrunk_mark_safe.
Qed.

Lemma only_removed_mark_mine (st : MinesweeperAI.t) (c : Cell) :
  only_removed st (MinesweeperAI.mark_mine st c).
Proof.
  split; [apply mark_mine_grows|]. simpl. apply Forall2_fmap_r, Forall_Forall2_diag.
  apply Forall_forall. intros s _. apply shrunk_mark_mine.
Qed.

Lemma only_removed_visit (k : nat) (st : MinesweeperAI.t) :
  only_removed st (MinesweeperAI.visit k st).
Proof.
  unfold MinesweeperAI.visit.
  destruct (MinesweeperAI.knowledge st !! k) as [s|]; [|reflexivity].
  set (st1 := foldl MinesweeperAI.mark_safe st (elements (Sentence.known_safes s))).
  assert (only_removed st st1) as H1
    by (apply (foldl_related only_removed); apply only_removed_mark_safe).
  destruct (MinesweeperAI.knowledge st1 !! k) as [s'|]; [|assumption].
  transitivity st1; [assumption|].
  apply (foldl_related only_removed); apply only_removed_mark_mine.
Qed.

(** X8. A pass of [mark_mine_or_safe] keeps every sentence at its place in
    the knowledge base and only removes cells from it: a sentence that
    loses no cell is unchanged; [mines] and [safes] only grow. *)
Theorem pass_only_removes_cells (st : MinesweeperAI.t) :
  Forall2 shrunk (MinesweeperAI.knowledge st)
          (MinesweeperAI.knowledge (MinesweeperAI.mark_mine_or_safe st))
  ∧ MinesweeperAI.mines st ⊆ MinesweeperAI.mines (MinesweeperAI.mark_mine_or_safe st)
  ∧ MinesweeperAI.safes st ⊆ MinesweeperAI.safes (MinesweeperAI.mark_mine_or_safe st).
Proof.
  destruct (scan_related only_removed (length (MinesweeperAI.knowledge st)) st
              only_removed_visit) as [(Hm & Hs & _) Hkb].
  split; [exact Hkb|]. split; [exact Hm | exact Hs].
Qed.

Lemma known_within (s : Sentence.t) :
  Sentence.known_mines s ⊆ Sentence.cells s ∧ Sentence.known_safes s ⊆ Sentence.cells s.
Proof.
  split; intros c.
  - by intros [Hc _]%known_mines_elem.
  - by intros [Hc _]%known_safes_elem.
Qed.

Lemma scan_fixed (n : nat) :
  ∀ (st0 st : MinesweeperAI.t),
    only_removed st0 st →
    MinesweeperAI.knowledge (MinesweeperAI.scan n st) = MinesweeperAI.knowledge st0 →
    ∀ k s, (k < n)%nat → MinesweeperAI.knowledge st0 !! k = Some s →
           Sentence.known_mines s = ∅ ∧ Sentence.known_safes s = ∅.
Proof.
  induction n as [|n IH]; intros st0 st H0 Hfix k s Hk Hs; [lia|].
  simpl in Hfix.
  pose proof (only_removed_visit n st) as Hv.
  pose proof (scan_related only_removed n (MinesweeperAI.visit n st) only_removed_visit)
    as Hrest.
  destruct (decide (k = n)) as [->|Hne];
    [|apply (IH st0 (MinesweeperAI.visit n st)) with (k := k);
      [by etransitivity | assumption | lia | assumption]].
  (* the sentence at [n] when it is visited is [s] itself *)
  destruct (Forall2_lookup_l _ _ _ _ _ (proj2 H0) Hs) as (sn & Hsn & [Hsub Hsame]).
  destruct (Forall2_lookup_l _ _ _ _ _ (proj2 Hv) Hsn) as (sv & Hsv & [Hsubv _]).
  destruct (Forall2_lookup_l _ _ _ _ _ (proj2 Hrest) Hsv) as (sf & Hsf & [Hsubf _]).
  rewrite Hfix, Hs in Hsf. injection Hsf as <-.
  assert (sn = s) as -> by (apply Hsame; set_solver).
  (* so the visit removed nothing from it *)
  rewrite (visit_unfold n st s Hsn) in Hsv. simpl in Hsv.
  rewrite list_lookup_fmap, Hsn in Hsv. simpl in Hsv. injection Hsv as <-.
  simpl in Hsubf.
  destruct (known_within s) as [_ Hks].
  destruct (known_within (Sentence.mk (Sentence.cells s ∖ Sentence.known_safes s)
                                      (Sentence.count s))) as [Hkm _].
  simpl in Hkm.
  assert (Sentence.known_safes s = ∅) as Hsafe by set_solver.
  split; [|exact Hsafe].
  rewrite Hsafe in Hkm, Hsubf.
  assert (Sentence.cells s ∖ ∅ = Sentence.cells s) as Hid by set_solver.
  rewrite Hid in Hkm, Hsubf. destruct s as [X m]. simpl in *. set_solver.
Qed.

(** X23. A pass of [mark_mine_or_safe] leaves the agent as it is exactly
    when no sentence of the knowledge base reports a known mine or a known
    safe cell. *)
Theorem mark_mine_or_safe_fixed_iff (st : MinesweeperAI.t) :
  MinesweeperAI.mark_mine_or_safe st = st ↔ nothing_known (MinesweeperAI.knowledge st).
Proof.
  split; [|apply mark_mine_or_safe_stable].
  intros Hfix. apply Forall_lookup. intros k s Hs.
  apply (scan_fixed (length (MinesweeperAI.knowledge st)) st st) with (k := k).
  - reflexivity.
  - unfold MinesweeperAI.mark_mine_or_safe in Hfix. by rewrite Hfix.
  - by apply lookup_lt_Some in Hs.
  - assumption.
Qed.

(** ** An observation that accounts for every undetermined neighbour *)

Lemma pending_full_mark_mine (g : Minesweeper.t) (p : nat) (U : gset Cell)
    (st : MinesweeperAI.t) (c : Cell) :
  pending_full g p U st → mine_at g c → pending_full g p U (MinesweeperAI.mark_mine st c).
Proof.
  intros (Hst & s & Hp & Hfull & HU) Hc. split; [by apply sound_mark_mine|].
  exists (Sentence.mark_mine c s). simpl. rewrite list_lookup_fmap, Hp.
  split; [reflexivity|]. split.
  - unfold Sentence.mark_mine. destruct (decide (c ∈ Sentence.cells s)) as [Hin|Hin].
    + rewrite (bool_decide_eq_true_2 _ Hin). simpl.
      rewrite size_difference by set_solver. rewrite size_singleton.
      assert (size (Sentence.cells s) ≠ 0%nat); [|lia].
      intros Hz. apply size_zero_empty in Hz. set_solver.
    + by rewrite (bool_decide_eq_false_2 _ Hin).
  - intros c' Hc'. rewrite cells_mark_mine.
    destruct (HU c' Hc'); destruct (decide (c' = c)); set_solver.
Qed.

Lemma pending_full_mark_safe (g : Minesweeper.t) (p : nat) (U : gset Cell)
    (st : MinesweeperAI.t) (c : Cell) :
  pending_full g p U st → ¬ mine_at g c → pending_full g p U (MinesweeperAI.mark_safe st c).
Proof.
  intros (Hst & s & Hp & Hfull & HU) Hc. split; [by apply sound_mark_safe|].
  exists s. simpl. rewrite list_lookup_fmap, Hp. simpl.
  assert (c ∉ Sentence.cells s) as Hnot.
  { intros Hin. apply Hc. pose proof (sound_lookup g st p s Hst Hp) as Hs.
    unfold sentence_true in Hs.
    apply (mine_count_full g (Sentence.cells s) c); [lia | assumption]. }
  assert (Sentence.mark_safe c s = s) as ->.
  { destruct s as [X n]. unfold Sentence.mark_safe. simpl in *. f_equal. set_solver. }
  split; [reflexivity|]. split; assumption.
Qed.

Lemma pending_full_visit (g : Minesweeper.t) (p : nat) (U : gset Cell)
    (k : nat) (st : MinesweeperAI.t) :
  pending_full g p U st → pending_full g p U (MinesweeperAI.visit k st).
Proof.
  intros Hst. unfold MinesweeperAI.visit.
  destruct (MinesweeperAI.knowledge st !! k) as [s|] eqn:Hk; [|assumption].
  set (st1 := foldl MinesweeperAI.mark_safe st (elements (Sentence.known_safes s))).
  assert (pending_full g p U st1) as Hst1.
  { apply foldl_invariant; [|assumption].
    intros st' c Hc Hst'. apply pending_full_mark_safe; [assumption|].
    apply (known_safes_true g s);
      [exact (sound_lookup g st k s (proj1 Hst) Hk) | by apply elem_of_elements]. }
  destruct (MinesweeperAI.knowledge st1 !! k) as [s'|] eqn:Hk'; [|assumption].
  apply foldl_invariant; [|assumption].
  intros st' c Hc Hst'. apply pending_full_mark_mine; [assumption|].
  apply (known_mines_true g s');
    [exact (sound_lookup g st1 k s' (proj1 Hst1) Hk') | by apply elem_of_elements].
Qed.

Lemma pending_full_resolved (g : Minesweeper.t) (p : nat) (U : gset Cell)
    (st : MinesweeperAI.t) :
  pending_full g p U st → U ⊆ MinesweeperAI.mines (MinesweeperAI.visit p st).
Proof.
  intros (_ & s & Hp & Hfull & HU). rewrite (visit_unfold p st s Hp). simpl.
  intros c Hc. destruct (HU c Hc) as [Hin|Hin]; [|set_solver].
  apply elem_of_union. left. apply known_mines_elem. simpl.
  assert (Sentence.known_safes s = ∅) as ->.
  { unfold Sentence.known_safes. case_bool_decide as Hz; [|reflexivity].
    apply size_zero_empty. lia. }
  assert (Sentence.cells s ∖ ∅ = Sentence.cells s) as -> by set_solver.
  by split.
Qed.

Lemma pending_full_scan (g : Minesweeper.t) (p : nat) (U : gset Cell) (n : nat) :
  ∀ st, (p < n)%nat → pending_full g p U st →
        U ⊆ MinesweeperAI.mines (MinesweeperAI.scan n st).
Proof.
  induction n as [|n IH]; intros st Hp Hst; [lia|]. simpl.
  destruct (decide (p = n)) as [->|Hne].
  - etransitivity; [by apply (pending_full_resolved g)|].
    apply (scan_related facts_included n (MinesweeperAI.visit n st) visit_grows).
  - apply IH; [lia | by apply pending_full_visit].
Qed.

(** X24. When every observation so far is true of the board and the
    sentence built from the next true observation has as many mines as
    cells, the call of [add_knowledge] leaves every cell of that sentence
    in [mines]. *)
Theorem full_count_makes_neighbours_mines (g : Minesweeper.t) (st : MinesweeperAI.t)
    (cell : Cell) (count : Z) :
  reachable g st →
  valid_observation g cell count →
  Sentence.count (MinesweeperAI.new_sentence (MinesweeperAI.record_move st cell) cell count)
  = Z.of_nat (size (Sentence.cells
                      (MinesweeperAI.new_sentence (MinesweeperAI.record_move st cell)
                                                  cell count))) →
  Sentence.cells (MinesweeperAI.new_sentence (MinesweeperAI.record_move st cell) cell count)
  ⊆ MinesweeperAI.mines (MinesweeperAI.add_knowledge st cell count).
Proof.
  intros Hst%reachable_sound [Hsafe Hcount] Hfull.
  pose proof (sound_record_move g st cell Hst Hsafe) as Hst1.
  set (st1 := MinesweeperAI.record_move st cell) in *.
  pose proof (new_sentence_true g st1 cell count Hst1 Hcount) as Hs.
  set (s := MinesweeperAI.new_sentence st1 cell count) in *.
  pose proof (sound_append_if_new g s st1 Hst1 Hs) as Hst2.
  destruct (append_if_new_lookup s st1) as [p Hp].
  set (st2 := MinesweeperAI.append_if_new s st1) in *.
  assert (pending_full g p (Sentence.cells s) st2) as Hpending.
  { split; [assumption|]. exists s. split; [assumption|]. split; [assumption|]. by left. }
  assert (Sentence.cells s ⊆ MinesweeperAI.mines (MinesweeperAI.mark_mine_or_safe st2))
    as Hdone.
  { apply (pending_full_scan g p _ _ st2); [|assumption]. by apply lookup_lt_Some in Hp. }
  unfold MinesweeperAI.add_knowledge. fold st1 s st2.
  assert (facts_included (MinesweeperAI.mark_mine_or_safe st2)
            (MinesweeperAI.infer
               (length (MinesweeperAI.knowledge
                          (MinesweeperAI.prune (MinesweeperAI.mark_mine_or_safe st2))))
               (MinesweeperAI.prune (MinesweeperAI.mark_mine_or_safe st2))))
    as (Hgrow & _ & _).
  { etransitivity; [|apply (infer_related facts_included), derive_from_grows].
    apply set_knowledge_grows. }
  etransitivity; [exact Hdone | exact Hgrow].
Qed.

Lemma full_count_makes_neighbours_mines_witness :
  reachable game_e (fresh_agent game_e)
  ∧ valid_observation game_e (0, 0) 3
  ∧ Sentence.cells
      (MinesweeperAI.new_sentence (MinesweeperAI.record_move (fresh_agent game_e) (0, 0))
                                  (0, 0) 3)
    ⊆ MinesweeperAI.mines (MinesweeperAI.add_knowledge (fresh_agent game_e) (0, 0) 3).
Proof.
  assert (valid_observation game_e (0, 0) 3) as Hobs by by_evaluation.
  split; [apply reachable_fresh|]. split; [exact Hobs|].
  apply (full_count_makes_neighbours_mines game_e _ (0, 0) 3 (reachable_fresh game_e) Hobs).
  by_evaluation.
Defined.

(** ** Bookkeeping of the knowledge base, continued *)

(** X25. The removal step keeps exactly the sentences with at least one
    cell, in their order, changes nothing else, and removing twice is
    removing once. *)
Theorem prune_keeps_nonempty (st : MinesweeperAI.t) :
  MinesweeperAI.knowledge (MinesweeperAI.prune st)
  = filter (λ s, Sentence.cells s ≠ ∅) (MinesweeperAI.knowledge st)
  ∧ facts_included st (MinesweeperAI.prune st)
  ∧ facts_included (MinesweeperAI.prune st) st
  ∧ MinesweeperAI.prune (MinesweeperAI.prune st) = MinesweeperAI.prune st.
Proof.
  split; [|split; [|split]].
  - unfold MinesweeperAI.prune. simpl. apply list_filter_iff. intros s. split.
    + intros Hpos Hempty. rewrite Hempty, size_empty in Hpos. lia.
    + intros Hne. destruct (decide (size (Sentence.cells s) = 0%nat)) as [Hz|Hz]; [|lia].
      by apply size_zero_empty in Hz.
  - apply set_knowledge_grows.
  - unfold facts_included. simpl. set_solver.
  - unfold MinesweeperAI.prune. apply agent_eq; simpl; try reflexivity.
    apply list_filter_filter_l. tauto.
Qed.

(** X28. Appending a sentence through the membership test of
    [add_knowledge] never makes two positions of the knowledge base hold
    equal sentences. *)
Theorem appending_keeps_sentences_distinct (s : Sentence.t) (st : MinesweeperAI.t) :
  no_equal_pair (MinesweeperAI.knowledge st) →
  no_equal_pair (MinesweeperAI.knowledge (MinesweeperAI.append_if_new s st)).
Proof. apply append_if_new_no_equal_pair. Qed.

Lemma appending_keeps_sentences_distinct_witness :
  no_equal_pair (MinesweeperAI.knowledge (play game_b obs_b))
  ∧ no_equal_pair
      (MinesweeperAI.knowledge
         (MinesweeperAI.append_if_new (Sentence.mk {[ (0, 1); (1, 1) ]} 1)
                                      (play game_b obs_b))).
Proof.
  assert (no_equal_pair (MinesweeperAI.knowledge (play game_b obs_b))) as H.
  { assert (MinesweeperAI.knowledge (play game_b obs_b)
            = [Sentence.mk {[ (0, 1); (1, 1) ]} 1;
               Sentence.mk {[ (0, 1); (1, 1); (2, 0); (2, 1) ]} 1]) as -> by by_evaluation.
    intros [|[|i]] [|[|j]] s1 s2 Hij H1 H2; try done;
      simpl in H1, H2; injection H1 as <-; injection H2 as <-; refute_by_evaluation. }
  split; [exact H | exact (appending_keeps_sentences_distinct _ _ H)].
Defined.

(** ** A new game, and a first observation *)

(** X26. A game as built by [Minesweeper.__init__] is won from the start
    exactly when it was asked to hold no mine. *)
Theorem new_game_won_iff_no_mine (h w m : Z) (draws : list nat) (g : Minesweeper.t) :
  Minesweeper.__init__ h w m draws = Minesweeper.Built g →
  (Minesweeper.won g = true ↔ m = 0).
Proof.
  intros Hg.
  destruct (place_mines_built h w m (length draws) draws _ _ g (le_n _) (agrees_empty h w) Hg)
    as (_ & _ & Hfound & Hsize & _).
  unfold Minesweeper.won. rewrite bool_decide_eq_true, Hfound. split.
  - intros Heq. rewrite <- Heq, size_empty in Hsize. lia.
  - intros ->. symmetry. apply size_zero_empty. lia.
Qed.

Lemma new_game_won_iff_no_mine_witness :
  Minesweeper.__init__ 2 2 1 [0; 1]%nat
  = Minesweeper.Built (Minesweeper.mk 2 2 {[ (0, 1) ]} [[false; true]; [false; false]] ∅)
  ∧ (Minesweeper.won (Minesweeper.mk 2 2 {[ (0, 1) ]} [[false; true]; [false; false]] ∅) = true
     ↔ 1 = 0).
Proof.
  assert (Minesweeper.__init__ 2 2 1 [0; 1]%nat
          = Minesweeper.Built
              (Minesweeper.mk 2 2 {[ (0, 1) ]} [[false; true]; [false; false]] ∅)) as H
    by (vm_compute; reflexivity).
  split; [exact H | exact (new_game_won_iff_no_mine 2 2 1 [0; 1]%nat _ H)].
Defined.

(** X27. On a new agent, an observation whose sentence has cells and
    resolves nothing (its count is neither 0 nor its number of cells) is
    stored as it is: the agent ends with that one sentence, [cell] played
    and safe, and no mine. *)
Theorem first_observation_stored (h w : Z) (cell : Cell) (count : Z) :
  Sentence.cells (MinesweeperAI.new_sentence
                    (MinesweeperAI.record_move (MinesweeperAI.__init__ h w) cell) cell count)
  ≠ ∅ →
  Sentence.known_mines (MinesweeperAI.new_sentence
                          (MinesweeperAI.record_move (MinesweeperAI.__init__ h w) cell)
                          cell count) = ∅ →
  Sentence.known_safes (MinesweeperAI.new_sentence
                          (MinesweeperAI.record_move (MinesweeperAI.__init__ h w) cell)
                          cell count) = ∅ →
  MinesweeperAI.add_knowledge (MinesweeperAI.__init__ h w) cell count
  = MinesweeperAI.mk h w {[cell]} ∅ {[cell]}
      [MinesweeperAI.new_sentence
         (MinesweeperAI.record_move (MinesweeperAI.__init__ h w) cell) cell count].
Proof.
  intros Hcells Hkm Hks.
  set (st1 := MinesweeperAI.record_move (MinesweeperAI.__init__ h w) cell) in *.
  set (s := MinesweeperAI.new_sentence st1 cell count) in *.
  unfold MinesweeperAI.add_knowledge. fold st1 s.
  assert (MinesweeperAI.append_if_new s st1 = MinesweeperAI.mk h w {[cell]} ∅ {[cell]} [s])
    as ->.
  { unfold MinesweeperAI.append_if_new, st1. simpl.
    apply agent_eq; simpl; try reflexivity; set_solver. }
  assert (nothing_known [s]) as Hnothing by (by repeat constructor).
  rewrite mark_mine_or_safe_stable by exact Hnothing.
  assert (MinesweeperAI.prune (MinesweeperAI.mk h w {[cell]} ∅ {[cell]} [s])
          = MinesweeperAI.mk h w {[cell]} ∅ {[cell]} [s]) as ->.
  { unfold MinesweeperAI.prune, MinesweeperAI.set_knowledge. simpl. f_equal.
    rewrite filter_cons, decide_True; [reflexivity|].
    destruct (decide (size (Sentence.cells s) = 0%nat)) as [Hz|Hz]; [|lia].
    by apply size_zero_empty in Hz. }
  simpl. unfold MinesweeperAI.derive_from. simpl.
  by apply mark_mine_or_safe_stable.
Qed.

Lemma first_observation_stored_witness :
  MinesweeperAI.add_knowledge (MinesweeperAI.__init__ 3 2) (0, 0) 1
  = MinesweeperAI.mk 3 2 {[ (0, 0) ]} ∅ {[ (0, 0) ]}
      [MinesweeperAI.new_sentence
         (MinesweeperAI.record_move (MinesweeperAI.__init__ 3 2) (0, 0)) (0, 0) 1].
Proof.
  apply (first_observation_stored 3 2 (0, 0) 1); [refute_by_evaluation | by_evaluation..].
Defined.
